(** * A shallow embedding of [platform/qt/src/sqlite3.cpp]

    The file implements [mapbox::sqlite] on top of Qt's SQL module:
    [Database], [Statement] and [Transaction] are thin wrappers around
    [QSqlDatabase] and [QSqlQuery].  The embedding keeps that layering.

    - Qt's value classes ([QByteArray], [QVariant], [QString] and
      [QStringList] as far as the file uses them) are modelled by small
      data types that follow the Qt documentation.
    - The SQL driver itself (opening a connection, preparing and
      executing a query, fetching a row) is not part of the repository:
      it is an interface, [QSqlDriver], and every statement about the
      wrappers is proved for an arbitrary implementation of it, under
      explicit hypotheses where the wrapper relies on the driver's
      contract.
    - C++ control flow is a state monad with exceptions; the calls a
      method makes to the driver are recorded in an event trace, so that
      "which statements were issued, in which order" is observable. *)

From Stdlib Require Import ZArith List String Ascii Bool Lia.
From Stdlib Require Import DecimalString DecimalZ DecimalPos.
Import ListNotations.

Local Open Scope string_scope.
Local Open Scope Z_scope.

(** ** Machine integers *)

Inductive IntType := I8 | I16 | I32 | I64 | U8 | U16 | U32 | U64.

Definition bits (t : IntType) : Z :=
  match t with
  | I8 | U8 => 8
  | I16 | U16 => 16
  | I32 | U32 => 32
  | I64 | U64 => 64
  end.

Definition is_signed (t : IntType) : bool :=
  match t with
  | I8 | I16 | I32 | I64 => true
  | U8 | U16 | U32 | U64 => false
  end.

(** Conversion of an integer to the type [t]: reduction modulo [2^bits],
    into the signed or the unsigned range. *)
Definition wrap (t : IntType) (n : Z) : Z :=
  if is_signed t
  then (n + 2 ^ (bits t - 1)) mod 2 ^ bits t - 2 ^ (bits t - 1)
  else n mod 2 ^ bits t.

Definition in_range (t : IntType) (n : Z) : Prop :=
  if is_signed t
  then - 2 ^ (bits t - 1) <= n < 2 ^ (bits t - 1)
  else 0 <= n < 2 ^ bits t.

(** [std::numeric_limits<int>::max()] *)
Definition INT_MAX : Z := 2147483647.

(** [mbgl::util::toString] on an integer: its decimal representation. *)
Definition toString (n : Z) : string := NilZero.string_of_int (Z.to_int n).

(** ** Strings: the part of [QString] and [QStringList] the file uses *)

Definition isEmpty (s : string) : bool :=
  match s with
  | EmptyString => true
  | String _ _ => false
  end.

(** [QString::split(sep)] with the default [KeepEmptyParts]: the pieces
    between the occurrences of [sep]; a string without [sep] (the empty
    one too) is a single piece. *)
Fixpoint split (sep : ascii) (s : string) : list string :=
  match s with
  | EmptyString => [EmptyString]
  | String c rest =>
      if Ascii.eqb c sep then EmptyString :: split sep rest
      else match split sep rest with
           | [] => [String c EmptyString]
           | piece :: pieces => String c piece :: pieces
           end
  end.

(** [QStringList::removeAll(x)] *)
Definition removeAll (x : string) (l : list string) : list string :=
  filter (fun piece => negb (String.eqb piece x)) l.

Definition newline : string := String "010"%char EmptyString.

(** ** [QSqlError] and the exceptions of the file *)

Inductive ErrorType :=
| NoError | ConnectionError | StatementError | TransactionError | UnknownError.

(** The enumerators of [QSqlError::ErrorType] as integers. *)
Definition ErrorType_code (t : ErrorType) : Z :=
  match t with
  | NoError => 0
  | ConnectionError => 1
  | StatementError => 2
  | TransactionError => 3
  | UnknownError => 4
  end.

Definition is_NoError (t : ErrorType) : bool :=
  match t with NoError => true | _ => false end.

Record QSqlError := mkError { error_type : ErrorType; error_text : string }.

Definition no_error : QSqlError := mkError NoError "".

(** What the file throws: [mapbox::sqlite::Exception { code, message }]
    everywhere but in the length check of [Statement::bind], which throws
    [std::range_error]. *)
Inductive exn :=
| Exception (code : Z) (message : string)
| std_range_error (what : string).

Definition is_Exception (e : exn) : bool :=
  match e with Exception _ _ => true | std_range_error _ => false end.

(** ** [QByteArray] and [QVariant] *)

Inductive QByteArray :=
| BA_null                 (* QByteArray(): null, size 0 *)
| BA (bytes : string).    (* not null, possibly empty *)

Definition QByteArray_isNull (b : QByteArray) : bool :=
  match b with BA_null => true | BA _ => false end.

(** [std::string(b.constData(), b.size())] *)
Definition QByteArray_toStdString (b : QByteArray) : string :=
  match b with BA_null => "" | BA s => s end.

(** [QByteArray(data, size)] and [QByteArray::fromRawData(data, size)] for
    a non-null [data] pointing to at least [size] bytes: the first [size]
    bytes.  The former copies, the latter aliases the caller's buffer; the
    contents are the same. *)
Definition QByteArray_of (data : string) (size : Z) : QByteArray :=
  BA (substring 0 (Z.to_nat size) data).

Definition QByteArray_fromRawData (data : string) (size : Z) : QByteArray :=
  BA (substring 0 (Z.to_nat size) data).

(** Floating point numbers and the conversions of Qt between numbers and
    text are not modelled: they are an interface. *)
Class QtNumeric := {
  double : Type;
  double_of_int : Z -> double;
  double_of_text : string -> double;
  int_of_double : double -> Z;
  int_of_text : string -> Z;
  text_of_double : double -> string;
  bool_of_text : string -> bool;
  bool_of_double : double -> bool
}.

Section Variant.
Context {N : QtNumeric}.

Inductive QVariant :=
| QV_Invalid                       (* QVariant() *)
| QV_TypedNull                     (* QVariant(QVariant::Type): typed, null *)
| QV_Bool (b : bool)
| QV_Int (t : IntType) (n : Z)
| QV_Double (d : double)
| QV_String (s : string)
| QV_ByteArray (b : QByteArray).

(** [QVariant::isNull()]: no value, or a value of a class whose own
    [isNull()] holds. *)
Definition QVariant_isNull (v : QVariant) : bool :=
  match v with
  | QV_Invalid | QV_TypedNull => true
  | QV_ByteArray b => QByteArray_isNull b
  | _ => false
  end.

(** [QVariant::toByteArray()] *)
Definition toByteArray (v : QVariant) : QByteArray :=
  match v with
  | QV_Invalid | QV_TypedNull => BA_null
  | QV_Bool b => BA (if b then "true" else "false")
  | QV_Int _ n => BA (toString n)
  | QV_Double d => BA (text_of_double d)
  | QV_String s => BA s
  | QV_ByteArray b => b
  end.

(** [QVariant::value<T>()] for the integer types. *)
Definition value_int (t : IntType) (v : QVariant) : Z :=
  match v with
  | QV_Invalid | QV_TypedNull => 0
  | QV_Bool b => if b then 1 else 0
  | QV_Int _ n => wrap t n
  | QV_Double d => wrap t (int_of_double d)
  | QV_String s => wrap t (int_of_text s)
  | QV_ByteArray b => wrap t (int_of_text (QByteArray_toStdString b))
  end.

(** [QVariant::value<double>()] *)
Definition value_double (v : QVariant) : double :=
  match v with
  | QV_Invalid | QV_TypedNull => double_of_int 0
  | QV_Bool b => double_of_int (if b then 1 else 0)
  | QV_Int _ n => double_of_int n
  | QV_Double d => d
  | QV_String s => double_of_text s
  | QV_ByteArray b => double_of_text (QByteArray_toStdString b)
  end.

(** [QVariant::value<bool>()] *)
Definition value_bool (v : QVariant) : bool :=
  match v with
  | QV_Invalid | QV_TypedNull => false
  | QV_Bool b => b
  | QV_Int _ n => negb (n =? 0)%Z
  | QV_Double d => bool_of_double d
  | QV_String s => bool_of_text s
  | QV_ByteArray b => bool_of_text (QByteArray_toStdString b)
  end.

(** The scalar types the templates [bind<T>] and [get<T>] are
    instantiated at. *)
Inductive Scalar :=
| SInt (t : IntType) (n : Z)
| SDouble (d : double)
| SBool (b : bool).

(** [QVariant::fromValue<T>(value)] *)
Definition fromValue (x : Scalar) : QVariant :=
  match x with
  | SInt t n => QV_Int t n
  | SDouble d => QV_Double d
  | SBool b => QV_Bool b
  end.

End Variant.

(** ** The driver interface

    [Conn] is the state behind a [QSqlDatabase] handle (the driver object
    and the database it is connected to), [Query] the state of a
    [QSqlQuery].  Every function is the Qt member function of the same
    name; those that can change the connection return the new one. *)
Class QSqlDriver {N : QtNumeric} := {
  Conn : Type;
  Query : Type;
  (* QSqlDatabase::addDatabase(type, connectionName): the connect options
     and the state of the new connection *)
  drv_addDatabase : string -> string -> string * Conn;
  (* QSqlDatabase::open(), with the database name and the connect options *)
  drv_open : string -> string -> Conn -> bool * Conn;
  drv_close : Conn -> Conn;
  drv_isOpen : Conn -> bool;
  drv_lastError : Conn -> QSqlError;
  (* QSqlQuery(db) *)
  query_new : Conn -> Query;
  query_setForwardOnly : bool -> Query -> Query;
  query_prepare : string -> Query -> Conn -> bool * Query;
  query_exec : Query -> Conn -> bool * Query * Conn;
  query_next : Query -> bool * Query;
  query_bindValue : Z -> QVariant -> Query -> Query;
  query_value : Z -> Query -> QVariant;
  query_isValid : Query -> bool;
  query_lastError : Query -> QSqlError;
  query_lastQuery : Query -> string;
  query_lastInsertId : Query -> QVariant;
  query_numRowsAffected : Query -> Z
}.

(** ** Control flow: state, exceptions, and the trace of driver calls *)

Inductive Event :=
| EvOpen (databaseName connectOptions : string) (ok : bool)
| EvClose
| EvPrepare (sql : string) (ok : bool)
| EvExec (sql : string) (ok : bool).

Inductive result (A : Type) :=
| Done (a : A)          (* normal return *)
| Thrown (e : exn)      (* a C++ exception leaves the function *)
| Aborted.              (* an assert failed *)
Arguments Done {A} a.
Arguments Thrown {A} e.
Arguments Aborted {A}.

(** A computation over a state [S]: its result, the state it leaves (also
    when it throws) and the driver calls it made, oldest first. *)
Definition M (S A : Type) : Type := S -> result A * S * list Event.

Definition ret {S A} (a : A) : M S A := fun s => (Done a, s, []).

Definition bind {S A B} (m : M S A) (k : A -> M S B) : M S B :=
  fun s =>
    match m s with
    | (Done a, s1, l1) =>
        match k a s1 with (r, s2, l2) => (r, s2, (l1 ++ l2)%list) end
    | (Thrown e, s1, l1) => (Thrown e, s1, l1)
    | (Aborted, s1, l1) => (Aborted, s1, l1)
    end.

Definition throw {S A} (e : exn) : M S A := fun s => (Thrown e, s, []).
Definition assert {S} (b : bool) : M S unit :=
  fun s => (if b then Done tt else Aborted, s, []).
Definition get_state {S} : M S S := fun s => (Done s, s, []).
Definition put_state {S} (s : S) : M S unit := fun _ => (Done tt, s, []).
Definition emit {S} (ev : Event) : M S unit := fun s => (Done tt, s, [ev]).

(** [try { m } catch (...) { }] *)
Definition try_catch_all {S} (m : M S unit) : M S unit :=
  fun s =>
    match m s with
    | (Thrown _, s1, l1) => (Done tt, s1, l1)
    | other => other
    end.

(** Running a computation on one component of a pair of states. *)
Definition on_snd {S T A} (m : M T A) : M (S * T) A :=
  fun st => match m (snd st) with (r, t, l) => (r, (fst st, t), l) end.

Definition on_fst {S T A} (m : M S A) : M (S * T) A :=
  fun st => match m (fst st) with (r, s, l) => (r, (s, snd st), l) end.

Declare Scope monad_scope.
Delimit Scope monad_scope with monad.
Notation "x <- m ;; k" := (bind m (fun x => k))
  (at level 61, m at next level, right associativity) : monad_scope.
Notation "m ;; k" := (bind m (fun _ => k))
  (at level 61, right associativity) : monad_scope.
Local Open Scope monad_scope.

Definition result_of {S A} (x : result A * S * list Event) : result A := fst (fst x).
Definition state_of {S A} (x : result A * S * list Event) : S := snd (fst x).
Definition trace_of {S A} (x : result A * S * list Event) : list Event := snd x.

(** ** What the file takes from headers

    [sqlite3.hpp] and [mbgl/util/chrono.hpp] are not part of the file.
    The values of the two [OpenFlag] enumerators it tests and the default
    of the [retain] argument of [bind(int, const std::string&, bool)] are
    parameters; so are the tick rates of the two clocks involved:
    [mbgl::Timestamp] counts [timestamp_rate] ticks per second, and
    [std::chrono::system_clock::time_point] counts [clock_per_tick] ticks
    per tick of [mbgl::Timestamp]. *)
Class Headers := {
  ReadOnly : Z;
  SharedCache : Z;
  retain_default : bool;
  timestamp_rate : Z;
  clock_per_tick : Z
}.

Section Sqlite.
Context {N : QtNumeric} {D : QSqlDriver} {H : Headers}.

(** *** [QSqlDatabase] *)

Record QSqlDatabase := mkDb {
  connectOptions : string;
  databaseName : string;
  conn : Conn
}.

Definition addDatabase (type connectionName : string) : QSqlDatabase :=
  let (options, c) := drv_addDatabase type connectionName in
  mkDb options "" c.

Definition setConnectOptions (options : string) (db : QSqlDatabase) : QSqlDatabase :=
  mkDb options (databaseName db) (conn db).

Definition setDatabaseName (name : string) (db : QSqlDatabase) : QSqlDatabase :=
  mkDb (connectOptions db) name (conn db).

Definition QSqlDatabase_open : M QSqlDatabase bool :=
  fun db =>
    let (ok, c) := drv_open (databaseName db) (connectOptions db) (conn db) in
    (Done ok, mkDb (connectOptions db) (databaseName db) c,
     [EvOpen (databaseName db) (connectOptions db) ok]).

Definition QSqlDatabase_close : M QSqlDatabase unit :=
  fun db =>
    (Done tt, mkDb (connectOptions db) (databaseName db) (drv_close (conn db)),
     [EvClose]).

Definition isOpen (db : QSqlDatabase) : bool := drv_isOpen (conn db).

(** *** [checkQueryError], [checkDatabaseError] *)

Definition checkError {S} (lastError : QSqlError) : M S unit :=
  if is_NoError (error_type lastError) then ret tt
  else throw (Exception (ErrorType_code (error_type lastError)) (error_text lastError)).

Definition checkQueryError {S} (query : Query) : M S unit :=
  checkError (query_lastError query).

Definition checkDatabaseError : M QSqlDatabase unit :=
  db <- get_state ;; checkError (drv_lastError (conn db)).

(** *** [DatabaseImpl]

    The constructor reads and increments the file's static counter
    [count], a [uint32_t]: it is the state of the computation, and the
    new object is its result. *)

Record DatabaseImpl := mkDatabaseImpl { db : QSqlDatabase }.

Definition DatabaseImpl_options (connectOptions : string) (flags : Z) : string :=
  let connectOptions :=
    if negb (Z.land flags ReadOnly =? 0) then
      (if negb (isEmpty connectOptions) then connectOptions ++ ";" else connectOptions)
        ++ "QSQLITE_OPEN_READONLY"
    else connectOptions in
  let connectOptions :=
    if negb (Z.land flags SharedCache =? 0) then
      (if negb (isEmpty connectOptions) then connectOptions ++ ";" else connectOptions)
        ++ "QSQLITE_ENABLE_SHARED_CACHE"
    else connectOptions in
  connectOptions.

Definition DatabaseImpl_new (filename : string) (flags : Z) : M Z DatabaseImpl :=
  fun count =>
    let db := addDatabase "QSQLITE" (toString count) in
    let count := wrap U32 (count + 1) in
    let connectOptions := DatabaseImpl_options (connectOptions db) flags in
    let db := setConnectOptions connectOptions db in
    let db := setDatabaseName filename db in
    match (ok <- QSqlDatabase_open ;;
           if negb ok then checkDatabaseError else ret tt) db with
    | (Done _, db, l) => (Done (mkDatabaseImpl db), count, l)
    | (Thrown e, _, l) => (Thrown e, count, l)
    | (Aborted, _, l) => (Aborted, count, l)
    end.

(** [DatabaseImpl::~DatabaseImpl] *)
Definition DatabaseImpl_delete : M QSqlDatabase unit :=
  QSqlDatabase_close ;; checkDatabaseError.

(** *** [Database] *)

Record Database := mkDatabase { impl : DatabaseImpl }.

Definition Database_new (file : string) (flags : Z) : M Z Database :=
  i <- DatabaseImpl_new file flags ;; ret (mkDatabase i).

(** A method body that works on [impl->db]. *)
Definition with_db {A} (m : M QSqlDatabase A) : M Database A :=
  fun this =>
    match m (db (impl this)) with
    | (r, d, l) => (r, mkDatabase (mkDatabaseImpl d), l)
    end.

Definition setBusyTimeout (timeout : Z) : M Database unit :=
  with_db (
    let timeoutStr := toString timeout in
    d <- get_state ;;
    let connectOptions := connectOptions d in
    let connectOptions :=
      if isEmpty connectOptions then
        (if negb (isEmpty connectOptions) then connectOptions ++ ";" else connectOptions)
          ++ "QSQLITE_BUSY_TIMEOUT=" ++ timeoutStr
      else connectOptions in
    (if isOpen d then QSqlDatabase_close else ret tt) ;;
    d <- get_state ;;
    put_state (setConnectOptions connectOptions d) ;;
    ok <- QSqlDatabase_open ;;
    if negb ok then checkDatabaseError else ret tt).

(** The list [Database::exec] loops over: the text split at every [';'],
    without the pieces that are exactly a newline. *)
Definition statements (sql : string) : list string :=
  removeAll newline (split ";"%char sql).

(** One turn of the loop of [Database::exec]. *)
Definition exec_statement (statement : string) : M QSqlDatabase unit :=
  let statement := statement ++ ";" in
  d <- get_state ;;
  let query := query_new (conn d) in
  let query := query_setForwardOnly true query in
  let (prepared, query) := query_prepare statement query (conn d) in
  emit (EvPrepare statement prepared) ;;
  match query_exec query (conn d) with
  | (ok, query, c) =>
      put_state (mkDb (connectOptions d) (databaseName d) c) ;;
      emit (EvExec statement ok) ;;
      if negb ok then checkQueryError query else ret tt
  end.

Fixpoint exec_loop (l : list string) : M QSqlDatabase unit :=
  match l with
  | [] => ret tt
  | statement :: rest => exec_statement statement ;; exec_loop rest
  end.

Definition Database_exec (sql : string) : M Database unit :=
  with_db (exec_loop (statements sql)).

(** *** [StatementImpl] and [Statement] *)

Record StatementImpl := mkStatementImpl { query : Query }.

Definition StatementImpl_new (sql : string) : M QSqlDatabase StatementImpl :=
  d <- get_state ;;
  let query := query_new (conn d) in
  let query := query_setForwardOnly true query in
  let (prepared, query) := query_prepare sql query (conn d) in
  emit (EvPrepare sql prepared) ;;
  (if negb prepared then checkQueryError query else ret tt) ;;
  ret (mkStatementImpl query).

Record Statement := mkStatement { Statement_impl : StatementImpl }.

(** The constructor of [Statement], and [Database::prepare] which calls it *)
Definition Statement_new (sql : string) : M Database Statement :=
  i <- with_db (StatementImpl_new sql) ;; ret (mkStatement i).

Definition Database_prepare (query : string) : M Database Statement :=
  Statement_new query.

(** A method body that works on [impl->query]. *)
Definition with_query {A} (m : M Query A) : M Statement A :=
  fun this =>
    match m (query (Statement_impl this)) with
    | (r, q, l) => (r, mkStatement (mkStatementImpl q), l)
    end.

Definition bindValue (pos : Z) (v : QVariant) : M Query unit :=
  fun q => (Done tt, query_bindValue pos v q, []).

Definition check_query : M Query unit :=
  q <- get_state ;; checkQueryError q.

(** [template <typename T> void Statement::bind(int offset, T value)] *)
Definition bind_value (offset : Z) (value : Scalar) : M Statement unit :=
  with_query (bindValue (offset - 1) (fromValue value) ;; check_query).

(** [Statement::bind(int offset, std::nullptr_t)] *)
Definition bind_nullptr (offset : Z) : M Statement unit :=
  with_query (bindValue (offset - 1) QV_Invalid ;; check_query).

(** [mbgl::Timestamp] is a count of ticks since the epoch.  The calls
    below go through [std::chrono::system_clock::time_point]; every
    conversion is a multiplication or a division truncating towards zero
    on 64-bit counts. *)
Definition Timestamp := Z.

Definition clock_rate : Z := timestamp_rate * clock_per_tick.

(** [std::chrono::system_clock::to_time_t] applied to a [Timestamp] *)
Definition to_time_t (value : Timestamp) : Z :=
  let time_point := wrap I64 (value * clock_per_tick) in
  Z.quot time_point clock_rate.

(** [time_point_cast<seconds>(system_clock::from_time_t(t))], returned
    as a [Timestamp] *)
Definition from_time_t_seconds (t : Z) : Timestamp :=
  let time_point := wrap I64 (t * clock_rate) in
  let seconds := Z.quot time_point clock_rate in
  wrap I64 (seconds * timestamp_rate).

(** [Statement::bind(int offset, mbgl::Timestamp value)] *)
Definition bind_Timestamp (offset : Z) (value : Timestamp) : M Statement unit :=
  bind_value offset (SInt I64 (to_time_t value)).

(** [Statement::bind(int, const char* value, std::size_t length, bool retain)] *)
Definition bind_chars (offset : Z) (value : string) (length : Z) (retain : bool)
  : M Statement unit :=
  if length >? INT_MAX then throw (std_range_error "value too long")
  else
    with_query (
      bindValue (offset - 1)
        (QV_ByteArray (if retain then QByteArray_of value length
                       else QByteArray_fromRawData value length)) ;;
      check_query).

(** [Statement::bind(int offset, const std::string& value, bool retain)] *)
Definition bind_string (offset : Z) (value : string) (retain : bool) : M Statement unit :=
  bind_chars offset value (Z.of_nat (String.length value)) retain.

(** [Statement::bind(int offset, optional<std::string> value)] *)
Definition bind_optional_string (offset : Z) (value : option string) : M Statement unit :=
  match value with
  | Some s => bind_string offset s retain_default
  | None => bind_nullptr offset
  end.

(** [Statement::bind(int offset, optional<mbgl::Timestamp> value)] *)
Definition bind_optional_Timestamp (offset : Z) (value : option Timestamp)
  : M Statement unit :=
  match value with
  | Some t => bind_Timestamp offset t
  | None => bind_nullptr offset
  end.

(** [Statement::run]: the query works on the connection it was prepared
    on, which is the second component of the state. *)
Definition run : M (Statement * Conn) bool :=
  st <- get_state ;;
  let q := query_setForwardOnly true (query (Statement_impl (fst st))) in
  let sql := query_lastQuery q in
  match query_exec q (snd st) with
  | (ok, q, c) =>
      put_state (mkStatement (mkStatementImpl q), c) ;;
      emit (EvExec sql ok) ;;
      (if negb ok then checkQueryError q else ret tt) ;;
      let (row, q) := query_next q in
      put_state (mkStatement (mkStatementImpl q), c) ;;
      ret row
  end.

(** The common beginning of every [get]: the assertion, the column, the
    error check. *)
Definition column (offset : Z) : M Query QVariant :=
  q <- get_state ;;
  assert (query_isValid q) ;;
  let value := query_value offset q in
  check_query ;;
  ret value.

(** [template <typename T> T Statement::get(int offset)] *)
Definition get_int (t : IntType) (offset : Z) : M Statement Z :=
  with_query (value <- column offset ;; ret (value_int t value)).

Definition get_double (offset : Z) : M Statement double :=
  with_query (value <- column offset ;; ret (value_double value)).

Definition get_bool (offset : Z) : M Statement bool :=
  with_query (value <- column offset ;; ret (value_bool value)).

(** [Statement::get<std::vector<uint8_t>>] *)
Definition get_blob (offset : Z) : M Statement string :=
  with_query (value <- column offset ;;
              ret (QByteArray_toStdString (toByteArray value))).

(** [Statement::get<mbgl::Timestamp>] *)
Definition get_Timestamp (offset : Z) : M Statement Timestamp :=
  with_query (value <- column offset ;;
              ret (from_time_t_seconds (value_int I64 value))).

(** [Statement::get<optional<int64_t>>] *)
Definition get_optional_int64 (offset : Z) : M Statement (option Z) :=
  with_query (value <- column offset ;;
              if QVariant_isNull value then ret None
              else ret (Some (value_int I64 value))).

(** [Statement::get<optional<double>>] *)
Definition get_optional_double (offset : Z) : M Statement (option double) :=
  with_query (value <- column offset ;;
              if QVariant_isNull value then ret None
              else ret (Some (value_double value))).

(** [Statement::get<std::string>] *)
Definition get_string (offset : Z) : M Statement string :=
  with_query (v <- column offset ;;
              let value := toByteArray v in
              ret (QByteArray_toStdString value)).

(** [Statement::get<optional<std::string>>] *)
Definition get_optional_string (offset : Z) : M Statement (option string) :=
  with_query (v <- column offset ;;
              let value := toByteArray v in
              if QByteArray_isNull value then ret None
              else ret (Some (QByteArray_toStdString value))).

(** [Statement::get<optional<mbgl::Timestamp>>] *)
Definition get_optional_Timestamp (offset : Z) : M Statement (option Timestamp) :=
  with_query (value <- column offset ;;
              if QVariant_isNull value then ret None
              else ret (Some (from_time_t_seconds (value_int I64 value)))).

Definition reset : M Statement unit := ret tt.

Definition clearBindings : M Statement unit := ret tt.

Definition lastInsertRowId (this : Statement) : Z :=
  value_int I64 (query_lastInsertId (query (Statement_impl this))).

Definition changes (this : Statement) : Z :=
  wrap U64 (query_numRowsAffected (query (Statement_impl this))).

(** *** [Transaction]

    The object holds a reference to the [Database]: its methods run on
    the pair of the two. *)

Inductive Mode := Deferred | Immediate | Exclusive.

Record Transaction := mkTransaction { needRollback : bool }.

(** Modelled from the spec: the member initialiser of [needRollback] is in
    [sqlite3.hpp]; a transaction is Active once constructed, and the flag
    is cleared only by the explicit calls [commit] and [rollback]. *)
Definition needRollback_initially : bool := true.

Definition Transaction_new (mode : Mode) : M Database Transaction :=
  match mode with
  | Deferred => Database_exec "BEGIN DEFERRED TRANSACTION"
  | Immediate => Database_exec "BEGIN IMMEDIATE TRANSACTION"
  | Exclusive => Database_exec "BEGIN EXCLUSIVE TRANSACTION"
  end ;;
  ret (mkTransaction needRollback_initially).

Definition set_needRollback (b : bool) : M (Transaction * Database) unit :=
  fun st => (Done tt, (mkTransaction b, snd st), []).

Definition commit : M (Transaction * Database) unit :=
  set_needRollback false ;;
  on_snd (Database_exec "COMMIT TRANSACTION").

Definition rollback : M (Transaction * Database) unit :=
  set_needRollback false ;;
  on_snd (Database_exec "ROLLBACK TRANSACTION").

(** [Transaction::~Transaction] *)
Definition Transaction_delete : M (Transaction * Database) unit :=
  st <- get_state ;;
  if needRollback (fst st) then try_catch_all rollback else ret tt.

(** *** The life of a [Transaction]

    A scope constructs a transaction, makes some calls on it and ends; an
    exception thrown by a call leaves the scope at once.  Either way the
    destructor runs.  The traces of the body and of the destructor are
    kept apart. *)

Inductive Call := CallCommit | CallRollback.

Definition call (c : Call) : M (Transaction * Database) unit :=
  match c with
  | CallCommit => commit
  | CallRollback => rollback
  end.

Fixpoint body (calls : list Call) : M (Transaction * Database) unit :=
  match calls with
  | [] => ret tt
  | c :: rest => call c ;; body rest
  end.

Record Scope := mkScope {
  begun : bool;                   (* the constructor returned *)
  body_result : result unit;
  body_trace : list Event;
  cleanup_result : result unit;
  cleanup_trace : list Event
}.

Definition scope (mode : Mode) (calls : list Call) (d : Database) : Scope * Database :=
  match Transaction_new mode d with
  | (Done t, d1, _) =>
      match body calls (t, d1) with
      | (r, st, l) =>
          match Transaction_delete st with
          | (r', st', l') => (mkScope true r l r' l', snd st')
          end
      end
  | (_, d1, _) => (mkScope false Aborted [] (Done tt) [], d1)
  end.

End Sqlite.

(** ** Reading traces *)

Definition COMMIT : string := "COMMIT TRANSACTION;".
Definition ROLLBACK : string := "ROLLBACK TRANSACTION;".

(** The statement was handed to [exec()] / was executed successfully. *)
Definition attempted (sql : string) (tr : list Event) : bool :=
  existsb (fun ev => match ev with
                     | EvExec s _ => String.eqb s sql
                     | _ => false
                     end) tr.

Definition succeeded (sql : string) (tr : list Event) : bool :=
  existsb (fun ev => match ev with
                     | EvExec s ok => String.eqb s sql && ok
                     | _ => false
                     end) tr.

(** How many [COMMIT] or [ROLLBACK] statements were handed to [exec()]. *)
Definition ending_statements (tr : list Event) : nat :=
  List.length (filter (fun ev => match ev with
                            | EvExec s _ => String.eqb s COMMIT || String.eqb s ROLLBACK
                            | _ => false
                            end) tr).

(** The statement a call issues. *)
Definition statement_of (c : Call) : string :=
  match c with
  | CallCommit => COMMIT
  | CallRollback => ROLLBACK
  end.

(** The three ways a transaction is resolved, read off a scope: a
    [COMMIT] that went through, an explicit [ROLLBACK] that went through,
    a [ROLLBACK] issued by the destructor. *)
Definition commit_occurred (sc : Scope) : bool := succeeded COMMIT (body_trace sc).
Definition rollback_occurred (sc : Scope) : bool := succeeded ROLLBACK (body_trace sc).
Definition implicit_rollback_occurred (sc : Scope) : bool :=
  attempted ROLLBACK (cleanup_trace sc).

Definition occurrences (sc : Scope) : nat :=
  (if commit_occurred sc then 1 else 0) + (if rollback_occurred sc then 1 else 0)
  + (if implicit_rollback_occurred sc then 1 else 0).

(** What running a list of statements on a connection comes to, told on
    the driver alone: each statement, in order, is given to [prepare] on
    a fresh forward-only query and the query that comes back to [exec()],
    on the connection the statement before it left.  The answers of the
    driver are the flags of the two events.  The run goes on unless
    [exec()] returned [false] and left an error on the query: then that
    error is thrown as an [Exception] and the rest is not issued.  The
    answer of [prepare] decides nothing. *)
Section Issued.
Context {N : QtNumeric} {D : QSqlDriver}.


End Issued.

(** ** A small driver

    An in-memory implementation of the driver interface, on which the
    wrappers can be run.  A connection keeps a journal of the statements
    it executed; a query hands back in column [j] of its single row the
    value bound at position [j], as the query [SELECT ?, ?, ...] does,
    in the form the SQLite driver of Qt reads values back: [NULL] as a
    typed null variant, an integer as a 64-bit integer.  Which database
    names cannot be opened, which statements do not compile and which
    fail when executed are parameters. *)
Module Toy.

Definition numeric : QtNumeric := {|
  double := Z;
  double_of_int n := n;
  double_of_text _ := 0;
  int_of_double d := d;
  int_of_text _ := 0;
  text_of_double d := toString d;
  bool_of_text s := negb (isEmpty s);
  bool_of_double d := negb (d =? 0)
|}.

Record conn := mkConn {
  is_open : bool;
  error : QSqlError;
  journal : list string
}.

Record query := mkQuery {
  text : string;
  compiled : bool;
  bound : list (Z * @QVariant numeric);
  row : bool;
  query_error : QSqlError
}.

Fixpoint lookup (pos : Z) (l : list (Z * @QVariant numeric)) : @QVariant numeric :=
  match l with
  | [] => QV_Invalid
  | (p, v) :: rest => if p =? pos then v else lookup pos rest
  end.

Definition read_back (v : @QVariant numeric) : @QVariant numeric :=
  match v with
  | QV_Invalid | QV_TypedNull | QV_ByteArray BA_null => QV_TypedNull
  | QV_Bool b => QV_Int I64 (if b then 1 else 0)
  | QV_Int _ n => QV_Int I64 (wrap I64 n)
  | other => other
  end.

Section Driver.
Variables unreadable malformed locked : string -> bool.

Definition open (name options : string) (c : conn) : bool * conn :=
  if unreadable name
  then (false, mkConn false (mkError ConnectionError "Error opening database") (journal c))
  else (true, mkConn true (error c) (journal c)).

Definition prepare (sql : string) (q : query) (c : conn) : bool * query :=
  if malformed sql || negb (is_open c)
  then (false, mkQuery sql false (bound q) false
                 (mkError StatementError "Unable to execute statement"))
  else (true, mkQuery sql true (bound q) false no_error).

Definition exec (q : query) (c : conn) : bool * query * conn :=
  if negb (compiled q)
  then (false, mkQuery (text q) false (bound q) false
                 (mkError ConnectionError "No query"), c)
  else if locked (text q)
  then (false, mkQuery (text q) true (bound q) false
                 (mkError StatementError "database is locked"), c)
  else (true, mkQuery (text q) true (bound q) false no_error,
        mkConn (is_open c) (error c) (journal c ++ [text q])%list).

Definition next (q : query) : bool * query :=
  let fetched := compiled q && negb (row q) in
  (fetched, mkQuery (text q) (compiled q) (bound q) fetched (query_error q)).

Definition driver : @QSqlDriver numeric := {|
  Conn := conn;
  Query := query;
  drv_addDatabase _ _ := ("", mkConn false no_error []);
  drv_open := open;
  drv_close c := mkConn false (error c) (journal c);
  drv_isOpen := is_open;
  drv_lastError := error;
  query_new _ := mkQuery "" false [] false no_error;
  query_setForwardOnly _ q := q;
  query_prepare := prepare;
  query_exec := exec;
  query_next := next;
  query_bindValue pos v q :=
    mkQuery (text q) (compiled q) ((pos, v) :: bound q) (row q) (query_error q);
  query_value pos q := if row q then read_back (lookup pos (bound q)) else QV_Invalid;
  query_isValid := row;
  query_lastError := query_error;
  query_lastQuery := text;
  query_lastInsertId _ := QV_Invalid;
  query_numRowsAffected _ := 0
|}.

End Driver.

Definition never : string -> bool := fun _ => false.

(** An open connection with an empty journal, and objects on it. *)
Definition connection : conn := mkConn true no_error [].

Definition database (D : @QSqlDriver numeric) (c : @Conn _ D) (options : string)
  : @Database numeric D :=
  mkDatabase (mkDatabaseImpl (mkDb options "file.db" c)).

Definition statement (D : @QSqlDriver numeric) (q : @Query _ D) : @Statement numeric D :=
  mkStatement (mkStatementImpl q).

(** The query [SELECT ?], prepared and not yet executed. *)
Definition select : query := mkQuery "SELECT ?" true [] false no_error.

(** Every database opens and every statement compiles and runs. *)
Definition sound : @QSqlDriver numeric := driver never never never.

(** [COMMIT] cannot be executed, as when another connection holds a lock. *)
Definition busy : @QSqlDriver numeric := driver never never (String.eqb COMMIT).

(** [ROLLBACK] cannot be executed. *)
Definition stuck : @QSqlDriver numeric := driver never never (String.eqb ROLLBACK).

(** Statements that begin with ['!'] do not compile. *)
Definition picky : @QSqlDriver numeric :=
  driver never (fun sql => match sql with String "!"%char _ => true | _ => false end) never.







(** [ReadOnly] and [SharedCache] with the values of [SQLITE_OPEN_READONLY]
    and [SQLITE_OPEN_SHAREDCACHE]; timestamps in seconds over a clock in
    nanoseconds. *)
Definition headers : Headers := {|
  ReadOnly := 1;
  SharedCache := 131072;
  retain_default := true;
  timestamp_rate := 1;
  clock_per_tick := 1000000000
|}.

(** Timestamps in milliseconds over the same clock. *)
Definition headers_ms : Headers := {|
  ReadOnly := 1;
  SharedCache := 131072;
  retain_default := true;
  timestamp_rate := 1000;
  clock_per_tick := 1000000
|}.

End Toy.

(** ** Vocabulary for the statements below *)

(** Pieces joined with a separator: the inverse of [split]. *)
Fixpoint join (sep : ascii) (pieces : list string) : string :=
  match pieces with
  | [] => ""
  | [piece] => piece
  | piece :: rest => piece ++ String sep (join sep rest)
  end.

Fixpoint occurs (c : ascii) (s : string) : bool :=
  match s with
  | EmptyString => false
  | String c' rest => Ascii.eqb c' c || occurs c rest
  end.

(** The bits of [flags] that are neither [ReadOnly] nor [SharedCache]. *)
Definition unrecognised {H : Headers} (flags : Z) : Z :=
  Z.land flags (Z.lnot (Z.lor ReadOnly SharedCache)).

(** The connect options [open] is said to build: what the connection had,
    then a token for each of the two flags that is set, with [';']
    between them. *)
Definition option_tokens {H : Headers} (options0 : string) (flags : Z) : list string :=
  ((if isEmpty options0 then [] else [options0])
   ++ (if Z.land flags ReadOnly =? 0 then [] else ["QSQLITE_OPEN_READONLY"])
   ++ (if Z.land flags SharedCache =? 0 then [] else ["QSQLITE_ENABLE_SHARED_CACHE"]))%list.

Section Marshalling.
Context {N : QtNumeric} {D : QSqlDriver} {H : Headers}.

(** The ways the file binds SQL [NULL]: the null marker, an absent
    optional string, an absent optional timestamp. *)
Inductive NullBinding := ByNullptr | ByAbsentString | ByAbsentTimestamp.

Definition bind_null (how : NullBinding) (offset : Z) : M Statement unit :=
  match how with
  | ByNullptr => bind_nullptr offset
  | ByAbsentString => bind_optional_string offset None
  | ByAbsentTimestamp => bind_optional_Timestamp offset None
  end.

(** The types [T] for which the file defines [get<optional<T>>]. *)
Inductive OptionalType := OptInt64 | OptDouble | OptString | OptTimestamp.

Definition reads_absent (T : OptionalType) (offset : Z) (this : Statement) : Prop :=
  match T with
  | OptInt64 => get_optional_int64 offset this = (Done None, this, [])
  | OptDouble => get_optional_double offset this = (Done None, this, [])
  | OptString => get_optional_string offset this = (Done None, this, [])
  | OptTimestamp => get_optional_Timestamp offset this = (Done None, this, [])
  end.

(** The driver's side of a round trip: a null variant is read back as a
    null variant, an integer as a variant with the same 64-bit value. *)
Definition stored_as (bound read : QVariant) : Prop :=
  (QVariant_isNull bound = true -> QVariant_isNull read = true) /\
  (forall t n, bound = QV_Int t n -> value_int I64 read = wrap I64 n).

(** A round-tripping query: whatever is bound at [offset], if running the
    statement gives a row, the query stands on it without error and
    column [column] holds what was bound. *)
Definition round_trips (this : Statement) (c : Conn) (offset column : Z) : Prop :=
  forall v this' c' tr,
    run (mkStatement (mkStatementImpl
           (query_bindValue (offset - 1) v (query (Statement_impl this)))), c)
    = (Done true, (this', c'), tr) ->
    query_isValid (query (Statement_impl this')) = true /\
    error_type (query_lastError (query (Statement_impl this'))) = NoError /\
    stored_as v (query_value column (query (Statement_impl this'))).

(** A timestamp cut to whole seconds, towards the epoch. *)
Definition whole_seconds (value : Timestamp) : Timestamp :=
  timestamp_rate * Z.quot value timestamp_rate.

End Marshalling.

(** ** The rest of the file *)

(** *** [Statement::bindBlob(int, const void*, std::size_t, bool)]

    Unlike [bind], [bindBlob] has no length check: the [std::size_t]
    length is converted to the [int] that [QByteArray] takes.  The pointer
    is taken to be non-null, as for [bind].  What [QByteArray] makes of a
    negative size depends on the memory behind the pointer and is a
    parameter. *)
Section Blob.
Context {N : QtNumeric} {D : QSqlDriver}.
Variable negative_size : string -> Z -> bool -> QByteArray.

Definition QByteArray_sized (retain : bool) (value : string) (size : Z) : QByteArray :=
  if size <? 0 then negative_size value size retain
  else if retain then QByteArray_of value size
  else QByteArray_fromRawData value size.

Definition bindBlob (offset : Z) (value : string) (length : Z) (retain : bool)
  : M Statement unit :=
  with_query (
    bindValue (offset - 1)
      (QV_ByteArray (QByteArray_sized retain value (wrap I32 length))) ;;
    check_query).

End Blob.

(** *** Moving a [Database] or a [Statement]

    Both classes hold their implementation in a [std::unique_ptr] and
    have the same move constructor, move assignment and [operator bool];
    [Impl] is [DatabaseImpl] or [StatementImpl]. *)
Section Handle.
Variable Impl : Type.

Definition Handle : Type := option Impl.

(** [operator bool] *)
Definition Handle_bool (this : Handle) : bool :=
  match this with Some _ => true | None => false end.

(** The move constructor: the state is the object moved from, the result
    the new object. *)
Definition Handle_move : M Handle Handle :=
  other <- get_state ;;
  let impl := other in
  put_state None ;;
  assert (Handle_bool impl) ;;
  ret impl.

(** The move assignment, on the pair of [*this] and [other]. *)
Definition Handle_assign : M (Handle * Handle) unit :=
  st <- get_state ;;
  put_state (snd st, fst st) ;;
  st <- get_state ;;
  assert (Handle_bool (fst st)).

End Handle.

Section Reading.
Context {N : QtNumeric} {D : QSqlDriver} {H : Headers}.

(** The specialisations and instantiations of [Statement::get]. *)
Inductive Getter :=
| GetInt (t : IntType)
| GetDouble
| GetBool
| GetBlob
| GetTimestamp
| GetString
| GetOptionalInt64
| GetOptionalDouble
| GetOptionalString
| GetOptionalTimestamp.

(** A result without its value. *)
Definition outcome {A S} (x : result A * S * list Event) : result unit * S * list Event :=
  match x with
  | (Done _, s, l) => (Done tt, s, l)
  | (Thrown e, s, l) => (Thrown e, s, l)
  | (Aborted, s, l) => (Aborted, s, l)
  end.

Definition get_outcome (g : Getter) (offset : Z) (this : Statement)
  : result unit * Statement * list Event :=
  match g with
  | GetInt t => outcome (get_int t offset this)
  | GetDouble => outcome (get_double offset this)
  | GetBool => outcome (get_bool offset this)
  | GetBlob => outcome (get_blob offset this)
  | GetTimestamp => outcome (get_Timestamp offset this)
  | GetString => outcome (get_string offset this)
  | GetOptionalInt64 => outcome (get_optional_int64 offset this)
  | GetOptionalDouble => outcome (get_optional_double offset this)
  | GetOptionalString => outcome (get_optional_string offset this)
  | GetOptionalTimestamp => outcome (get_optional_Timestamp offset this)
  end.

(** What the SQLite driver of Qt hands back for a bound value: [NULL] for
    a null variant, a 64-bit integer for an integer or a boolean, the
    number for a floating point number, the bytes for a byte array (an
    empty one may come back null). *)
Definition read_back_of (bound read : QVariant) : Prop :=
  match bound with
  | QV_Invalid | QV_TypedNull | QV_ByteArray BA_null => QVariant_isNull read = true
  | QV_Bool b => read = QV_Int I64 (if b then 1 else 0)
  | QV_Int _ n => read = QV_Int I64 (wrap I64 n)
  | QV_Double d => read = QV_Double d
  | QV_String s => read = QV_String s
  | QV_ByteArray (BA s) =>
      QByteArray_toStdString (toByteArray read) = s /\
      (s <> "" -> QVariant_isNull read = false)
  end.

(** A query that echoes parameter [offset] in column [column]: whatever
    is bound there, if running the statement gives a row, the query
    stands on it without error and the column holds what the driver reads
    back for the bound value. *)
Definition echoes (this : Statement) (c : Conn) (offset column : Z) : Prop :=
  forall v this' c' tr,
    run (mkStatement (mkStatementImpl
           (query_bindValue (offset - 1) v (query (Statement_impl this)))), c)
    = (Done true, (this', c'), tr) ->
    query_isValid (query (Statement_impl this')) = true /\
    error_type (query_lastError (query (Statement_impl this'))) = NoError /\
    read_back_of v (query_value column (query (Statement_impl this'))).

(** How many statements a trace hands to [exec()]. *)
Definition executions (tr : list Event) : nat :=
  List.length (filter (fun ev => match ev with EvExec _ _ => true | _ => false end) tr).


End Reading.

(** * Properties *)

(** ** The monad *)

Lemma bind_Done {S A B} (m : M S A) (k : A -> M S B) s a s1 l1 :
  m s = (Done a, s1, l1) ->
  bind m k s = (result_of (k a s1), state_of (k a s1), (l1 ++ trace_of (k a s1))%list).
Proof.
  intros E. unfold bind, result_of, state_of, trace_of. rewrite E.
  destruct (k a s1) as [[r s2] l2]. reflexivity.
Qed.

Lemma bind_Thrown {S A B} (m : M S A) (k : A -> M S B) s e s1 l1 :
  m s = (Thrown e, s1, l1) -> bind m k s = (Thrown e, s1, l1).
Proof. intros E. unfold bind. rewrite E. reflexivity. Qed.

Lemma triple_eta {S A} (x : result A * S * list Event) :
  x = (result_of x, state_of x, trace_of x).
Proof. destruct x as [[r s] l]. reflexivity. Qed.

Lemma checkError_cases {S} (e : QSqlError) (s : S) :
  checkError e s =
  (if is_NoError (error_type e) then Done tt
   else Thrown (Exception (ErrorType_code (error_type e)) (error_text e)), s, []).
Proof. unfold checkError. destruct (is_NoError (error_type e)); reflexivity. Qed.

Lemma code_of_error (t : ErrorType) : is_NoError t = false -> ErrorType_code t <> 0.
Proof. destruct t; simpl; intros; congruence. Qed.

Lemma is_NoError_false (t : ErrorType) : t <> NoError -> is_NoError t = false.
Proof. destruct t; simpl; congruence. Qed.

(** ** [split] *)

Lemma split_not_nil sep s : split sep s <> [].
Proof.
  destruct s as [|c s]; simpl; [discriminate|].
  destruct (Ascii.eqb c sep); [discriminate|].
  destruct (split sep s); discriminate.
Qed.



Lemma split_at sep a b :
  split sep (a ++ String sep b) = (split sep a ++ split sep b)%list.
Proof.
  induction a as [|c a IH]; simpl.
  - now rewrite Ascii.eqb_refl.
  - rewrite IH. destruct (Ascii.eqb c sep); [reflexivity|].
    pose proof (split_not_nil sep a) as Hn.
    destruct (split sep a) as [|p ps]; [congruence|reflexivity].
Qed.

(** ** [Database::exec] *)

Section Exec.
Context {N : QtNumeric} {D : QSqlDriver} {H : Headers}.

(** One turn of the loop, spelled out: the query is prepared, then
    executed whatever [prepare] returned, and only a failed execution
    that left an error on the query throws. *)
Lemma exec_statement_cases (piece : string) (d : QSqlDatabase) :
  let statement := piece ++ ";" in
  let q0 := query_setForwardOnly true (query_new (conn d)) in
  let prepared := query_prepare statement q0 (conn d) in
  let executed := query_exec (snd prepared) (conn d) in
  let ok := fst (fst executed) in
  let e := query_lastError (snd (fst executed)) in
  exec_statement piece d =
  (if ok then Done tt
   else if is_NoError (error_type e) then Done tt
   else Thrown (Exception (ErrorType_code (error_type e)) (error_text e)),
   mkDb (connectOptions d) (databaseName d) (snd executed),
   [EvPrepare statement (fst prepared); EvExec statement ok]).
Proof.
  unfold exec_statement, bind, get_state, emit, put_state, checkQueryError.
  cbv zeta.
  destruct (query_prepare (piece ++ ";") _ (conn d)) as [p q1]. simpl.
  destruct (query_exec q1 (conn d)) as [[ok q2] c]. simpl.
  destruct ok; simpl; [reflexivity|].
  rewrite checkError_cases.
  destruct (is_NoError _); reflexivity.
Qed.

Lemma with_db_trace {A} (m : M QSqlDatabase A) (this : Database) :
  result_of (with_db m this) = result_of (m (db (impl this))) /\
  trace_of (with_db m this) = trace_of (m (db (impl this))) /\
  db (impl (state_of (with_db m this))) = state_of (m (db (impl this))).
Proof.
  unfold with_db, result_of, trace_of, state_of.
  destruct (m (db (impl this))) as [[r d] l]. auto.
Qed.


End Exec.



(** On the driver that behaves as [QSqlQuery] does on SQLite the same
    text stops at the statement that does not compile: its [exec()]
    fails with an error, and ["C;"] is not issued. *)
Example exec_stops_on_picky :
  let ran := Database_exec "A('x;y');!B;C" (Toy.database Toy.picky Toy.connection "") in
  result_of ran = Thrown (Exception (ErrorType_code ConnectionError) "No query") /\
  trace_of ran
  = [EvPrepare "A('x;" true; EvExec "A('x;" true;
     EvPrepare "y');" true; EvExec "y');" true;
     EvPrepare "!B;" false; EvExec "!B;" false] /\
  Toy.journal (conn (db (impl (state_of ran)))) = ["A('x;"; "y');"].
Proof. repeat split. Qed.

(** One statement: where [exec()] succeeds the turn returns normally,
    whatever [prepare] returned. *)
Lemma exec_statement_ignores_prepare
  {N : QtNumeric} {D : QSqlDriver} (piece : string) (d : QSqlDatabase) :
  let q0 := query_setForwardOnly true (query_new (conn d)) in
  fst (fst (query_exec (snd (query_prepare (piece ++ ";") q0 (conn d))) (conn d))) = true ->
  result_of (exec_statement piece d) = Done tt.
Proof.
  intros q0 Hok. rewrite exec_statement_cases. cbv zeta. fold q0.
  rewrite Hok. reflexivity.
Qed.

(** ** Opening a database and [setBusyTimeout] *)

Lemma append_assoc (a b c : string) : (a ++ b) ++ c = a ++ (b ++ c).
Proof. induction a as [|x a IH]; simpl; [reflexivity|now rewrite IH]. Qed.

Lemma isEmpty_append (a b : string) : isEmpty (a ++ b) = isEmpty a && isEmpty b.
Proof. destruct a; reflexivity. Qed.

Lemma land_lor_absorb (a b : Z) : Z.land (Z.lor a b) a = a.
Proof.
  apply Z.bits_inj'. intros n _.
  rewrite Z.land_spec, Z.lor_spec. destruct (Z.testbit a n), (Z.testbit b n); reflexivity.
Qed.

Section Open.
Context {N : QtNumeric} {D : QSqlDriver} {H : Headers}.

Lemma DatabaseImpl_options_tokens (options0 : string) (flags : Z) :
  DatabaseImpl_options options0 flags = join ";" (option_tokens options0 flags).
Proof.
  unfold DatabaseImpl_options, option_tokens.
  destruct (Z.land flags ReadOnly =? 0), (Z.land flags SharedCache =? 0),
    options0 as [|c o]; cbn [negb isEmpty app join]; try reflexivity.
  all: rewrite ?isEmpty_append; cbn [isEmpty]; rewrite ?andb_false_r;
    cbn [negb]; rewrite ?append_assoc; reflexivity.
Qed.

Lemma DatabaseImpl_options_recognised (options0 : string) (flags : Z) :
  DatabaseImpl_options options0 (Z.land flags (Z.lor ReadOnly SharedCache))
  = DatabaseImpl_options options0 flags.
Proof.
  unfold DatabaseImpl_options.
  rewrite <- !Z.land_assoc, land_lor_absorb.
  rewrite (Z.lor_comm ReadOnly SharedCache), land_lor_absorb. reflexivity.
Qed.

Lemma DatabaseImpl_options_not_empty (options0 : string) (flags : Z) :
  Z.land flags ReadOnly <> 0 \/ Z.land flags SharedCache <> 0 ->
  isEmpty (DatabaseImpl_options options0 flags) = false.
Proof.
  intros Hflag. unfold DatabaseImpl_options.
  destruct (Z.eqb_spec (Z.land flags SharedCache) 0) as [Hs|Hs]; cbn [negb].
  - destruct (Z.eqb_spec (Z.land flags ReadOnly) 0) as [Hr|Hr]; cbn [negb].
    + tauto.
    + rewrite isEmpty_append. cbn. now rewrite andb_false_r.
  - rewrite isEmpty_append. cbn. now rewrite andb_false_r.
Qed.

(** The constructor, spelled out. *)
Lemma Database_new_cases (file : string) (flags count : Z) :
  let added := drv_addDatabase "QSQLITE" (toString count) in
  let options := DatabaseImpl_options (fst added) flags in
  let opened := drv_open file options (snd added) in
  let e := drv_lastError (snd opened) in
  Database_new file flags count =
  (if fst opened || is_NoError (error_type e)
   then Done (mkDatabase (mkDatabaseImpl (mkDb options file (snd opened))))
   else Thrown (Exception (ErrorType_code (error_type e)) (error_text e)),
   wrap U32 (count + 1),
   [EvOpen file options (fst opened)]).
Proof.
  unfold Database_new, DatabaseImpl_new, addDatabase, QSqlDatabase_open,
    checkDatabaseError, get_state, ret, bind.
  destruct (drv_addDatabase "QSQLITE" (toString count)) as [o c0].
  cbn [fst snd connectOptions databaseName conn setConnectOptions setDatabaseName].
  destruct (drv_open file (DatabaseImpl_options o flags) c0) as [ok c1].
  cbn [fst snd]. destruct ok; cbn [negb orb]; [reflexivity|].
  cbn [conn]. rewrite checkError_cases.
  destruct (is_NoError (error_type (drv_lastError c1))); reflexivity.
Qed.

(** [setBusyTimeout], spelled out. *)
Lemma setBusyTimeout_cases (timeout : Z) (this : Database) :
  let d := db (impl this) in
  let options :=
    if isEmpty (connectOptions d)
    then "QSQLITE_BUSY_TIMEOUT=" ++ toString timeout
    else connectOptions d in
  let closed := if isOpen d then drv_close (conn d) else conn d in
  let opened := drv_open (databaseName d) options closed in
  let e := drv_lastError (snd opened) in
  setBusyTimeout timeout this =
  (if fst opened || is_NoError (error_type e) then Done tt
   else Thrown (Exception (ErrorType_code (error_type e)) (error_text e)),
   mkDatabase (mkDatabaseImpl (mkDb options (databaseName d) (snd opened))),
   ((if isOpen d then [EvClose] else []) ++ [EvOpen (databaseName d) options (fst opened)])%list).
Proof.
  unfold setBusyTimeout, with_db, QSqlDatabase_open, QSqlDatabase_close,
    checkDatabaseError, get_state, put_state, ret, setConnectOptions, bind.
  destruct this as [[d]]. cbn [impl db].
  assert (Hopt : (if isEmpty (connectOptions d)
                  then (if negb (isEmpty (connectOptions d))
                        then connectOptions d ++ ";" else connectOptions d)
                       ++ "QSQLITE_BUSY_TIMEOUT=" ++ toString timeout
                  else connectOptions d)
                 = (if isEmpty (connectOptions d)
                    then "QSQLITE_BUSY_TIMEOUT=" ++ toString timeout
                    else connectOptions d)).
  { destruct (connectOptions d); reflexivity. }
  rewrite Hopt. clear Hopt.
  destruct (isOpen d);
    cbn [fst snd connectOptions databaseName conn app];
    match goal with |- context [drv_open ?a ?b ?c] =>
      destruct (drv_open a b c) as [ok c1] end;
    cbn [fst snd]; (destruct ok; cbn [negb orb]; [reflexivity|]);
    cbn [conn]; rewrite checkError_cases;
    destruct (is_NoError (error_type (drv_lastError c1))); reflexivity.
Qed.

End Open.

(** C1, the code where the claim fails: on a [Database] opened with
    [ReadOnly] or [SharedCache] the connect options are not empty, so
    [setBusyTimeout] adds nothing to them.  It closes the connection if it
    is open and reopens it with the options it had; the duration has no
    effect at all. *)
Theorem setBusyTimeout_ignored_after_flags
  {N : QtNumeric} {D : QSqlDriver} {H : Headers}
  (file : string) (flags count count' : Z) (this : Database) (tr : list Event) :
  Z.land flags ReadOnly <> 0 \/ Z.land flags SharedCache <> 0 ->
  Database_new file flags count = (Done this, count', tr) ->
  forall timeout : Z,
    connectOptions (db (impl (state_of (setBusyTimeout timeout this))))
    = connectOptions (db (impl this)) /\
    setBusyTimeout timeout this = setBusyTimeout 0 this /\
    exists ok,
      trace_of (setBusyTimeout timeout this)
      = ((if isOpen (db (impl this)) then [EvClose] else [])
         ++ [EvOpen file (connectOptions (db (impl this))) ok])%list.
Proof.
  intros Hflag Hnew timeout.
  assert (Hthis : isEmpty (connectOptions (db (impl this))) = false
                  /\ databaseName (db (impl this)) = file).
  { rewrite Database_new_cases in Hnew. cbv zeta in Hnew.
    destruct (_ || _) in Hnew; [|discriminate].
    injection Hnew as <- _ _. cbn [impl db connectOptions databaseName].
    split; [now apply DatabaseImpl_options_not_empty|reflexivity]. }
  destruct Hthis as [Hne Hname].
  rewrite !setBusyTimeout_cases. cbv zeta. rewrite Hne, Hname.
  unfold state_of, trace_of. cbn [fst snd impl db connectOptions].
  repeat split. eexists. reflexivity.
Qed.

Lemma setBusyTimeout_ignored_after_flags_witness :
  let this := Toy.database Toy.sound Toy.connection "QSQLITE_OPEN_READONLY" in
  connectOptions (db (impl (state_of (setBusyTimeout 1000 this))))
  = "QSQLITE_OPEN_READONLY" /\
  setBusyTimeout 1000 this = setBusyTimeout 0 this /\
  exists ok,
    trace_of (setBusyTimeout 1000 this)
    = [EvClose; EvOpen "file.db" "QSQLITE_OPEN_READONLY" ok].
Proof.
  intros this.
  refine (setBusyTimeout_ignored_after_flags (D := Toy.sound) (H := Toy.headers)
            "file.db" 1 0 1 this [EvOpen "file.db" "QSQLITE_OPEN_READONLY" true]
            _ _ 1000).
  - left. vm_compute. discriminate.
  - reflexivity.
Defined.

(** On a connection without options the timeout is set, once: a second
    call finds the options of the first and changes nothing. *)
Lemma setBusyTimeout_twice
  {N : QtNumeric} {D : QSqlDriver} {H : Headers} (t1 t2 : Z) (this : Database) :
  isEmpty (connectOptions (db (impl this))) = true ->
  let once := state_of (setBusyTimeout t1 this) in
  connectOptions (db (impl once)) = "QSQLITE_BUSY_TIMEOUT=" ++ toString t1 /\
  connectOptions (db (impl (state_of (setBusyTimeout t2 once))))
  = "QSQLITE_BUSY_TIMEOUT=" ++ toString t1.
Proof.
  intros He once. subst once. rewrite !setBusyTimeout_cases. cbv zeta.
  unfold state_of. cbn [fst snd impl db connectOptions]. rewrite He.
  cbn [isEmpty append]. split; reflexivity.
Qed.

(** C8, as amended: the connect options handed to [open()] are those of
    the new connection followed by [QSQLITE_OPEN_READONLY] if the
    [ReadOnly] bit is set and [QSQLITE_ENABLE_SHARED_CACHE] if the
    [SharedCache] bit is set, separated by [';']; every other bit of
    [flags] is ignored, the constructor behaves as if it were clear.  A
    failed [open()] that left an error on the connection throws an
    [Exception] with that error. *)
Theorem open_translates_recognised_flags
  {N : QtNumeric} {D : QSqlDriver} {H : Headers} (file : string) (flags count : Z) :
  let added := drv_addDatabase "QSQLITE" (toString count) in
  let options := join ";" (option_tokens (fst added) flags) in
  let opened := drv_open file options (snd added) in
  let e := drv_lastError (snd opened) in
  Database_new file flags count =
  (if fst opened || is_NoError (error_type e)
   then Done (mkDatabase (mkDatabaseImpl (mkDb options file (snd opened))))
   else Thrown (Exception (ErrorType_code (error_type e)) (error_text e)),
   wrap U32 (count + 1),
   [EvOpen file options (fst opened)]) /\
  Database_new file (Z.land flags (Z.lor ReadOnly SharedCache)) count
  = Database_new file flags count.
Proof.
  cbv zeta. split.
  - rewrite Database_new_cases. cbv zeta.
    rewrite DatabaseImpl_options_tokens. reflexivity.
  - rewrite !Database_new_cases. cbv zeta.
    rewrite DatabaseImpl_options_recognised. reflexivity.
Qed.

(** C8, as stated, fails: the flags [6] (read-write and create in the
    numbering of SQLite) have bits outside the recognised set, and the
    driver is handed exactly what it is handed for the flags [0]. *)
Lemma unrecognised_flags_are_dropped :
  unrecognised (H := Toy.headers) 6 <> unrecognised (H := Toy.headers) 0 /\
  Database_new (D := Toy.sound) (H := Toy.headers) "file.db" 6 0
  = Database_new (D := Toy.sound) (H := Toy.headers) "file.db" 0 0.
Proof. split; [vm_compute; discriminate|reflexivity]. Qed.

(** ** [Transaction] *)

Section Transactions.
Context {N : QtNumeric} {D : QSqlDriver} {H : Headers}.

(** [Database::exec] on a text that is a single statement: one query is
    prepared and executed; the call returns or throws an [Exception], and
    it returns if the execution succeeded. *)
Lemma Database_exec_one (text : string) (this : Database) :
  statements text = [text] ->
  exists prepared ok,
    trace_of (Database_exec text this)
    = [EvPrepare (text ++ ";") prepared; EvExec (text ++ ";") ok] /\
    (result_of (Database_exec text this) = Done tt \/
     ok = false /\ exists code message,
       result_of (Database_exec text this) = Thrown (Exception code message)).
Proof.
  intros Hs. unfold Database_exec.
  destruct (with_db_trace (exec_loop (statements text)) this) as (-> & -> & _).
  rewrite Hs. cbn [exec_loop].
  pose proof (exec_statement_cases text (db (impl this))) as E.
  cbv zeta in E.
  match type of E with
  | _ = (_, _, [EvPrepare _ ?p; EvExec _ ?ok]) =>
      exists p, ok; destruct ok eqn:Hok
  end.
  - rewrite (bind_Done _ _ _ _ _ _ E). cbn. auto.
  - match type of E with
    | context [is_NoError ?t] => destruct (is_NoError t)
    end.
    + rewrite (bind_Done _ _ _ _ _ _ E). cbn. auto.
    + rewrite (bind_Thrown _ _ _ _ _ _ E). cbn. split; [reflexivity|].
      right. split; [reflexivity|]. eauto.
Qed.

(** A transaction is constructed with the flag set. *)
Lemma Transaction_new_active (mode : Mode) (d d1 : Database) (t : Transaction) l :
  Transaction_new mode d = (Done t, d1, l) -> needRollback t = true.
Proof.
  unfold Transaction_new, bind. intros E.
  destruct mode;
    destruct (Database_exec _ d) as [[[u|e|] d'] l']; cbn in E; try discriminate;
    now injection E as <- _ _.
Qed.

(** [commit] and [rollback] clear the flag, then issue their statement;
    the flag is clear whether the statement goes through or not. *)
Lemma call_cases (c : Call) (t : Transaction) (d : Database) :
  exists prepared ok,
    trace_of (call c (t, d))
    = [EvPrepare (statement_of c) prepared; EvExec (statement_of c) ok] /\
    needRollback (fst (state_of (call c (t, d)))) = false /\
    (result_of (call c (t, d)) = Done tt \/
     ok = false /\ exists code message,
       result_of (call c (t, d)) = Thrown (Exception code message)).
Proof.
  assert (Hgen : forall text, statements text = [text] ->
    let m := (set_needRollback false ;; on_snd (Database_exec text))
               : M (Transaction * Database) unit in
    exists prepared ok,
      trace_of (m (t, d))
      = [EvPrepare (text ++ ";") prepared; EvExec (text ++ ";") ok] /\
      needRollback (fst (state_of (m (t, d)))) = false /\
      (result_of (m (t, d)) = Done tt \/
       ok = false /\ exists code message,
         result_of (m (t, d)) = Thrown (Exception code message))).
  { intros text Hs m. subst m.
    destruct (Database_exec_one text d Hs) as (p & ok & Htr & Hres).
    exists p, ok. unfold bind, set_needRollback, on_snd.
    cbn [fst snd]. rewrite (triple_eta (Database_exec text d)).
    rewrite Htr. unfold result_of, state_of, trace_of in *. cbn [fst snd app].
    auto. }
  destruct c; [apply (Hgen "COMMIT TRANSACTION")|apply (Hgen "ROLLBACK TRANSACTION")];
    reflexivity.
Qed.

Lemma body_keeps_flag_clear (calls : list Call) (t : Transaction) (d : Database) :
  needRollback t = false ->
  needRollback (fst (state_of (body calls (t, d)))) = false.
Proof.
  revert t d. induction calls as [|c rest IH]; intros t d Ht; [exact Ht|].
  cbn [body]. destruct (call_cases c t d) as (p & ok & _ & Hflag & _).
  unfold bind. destruct (call c (t, d)) as [[r [t1 d1]] l1].
  unfold state_of in Hflag. cbn [fst snd] in Hflag.
  destruct r as [[]|e|]; try exact Hflag.
  specialize (IH t1 d1 Hflag).
  destruct (body rest (t1, d1)) as [[r2 st2] l2]. exact IH.
Qed.

Lemma body_clears_flag (c : Call) (rest : list Call) (t : Transaction) (d : Database) :
  needRollback (fst (state_of (body (c :: rest) (t, d)))) = false.
Proof.
  cbn [body]. destruct (call_cases c t d) as (p & ok & _ & Hflag & _).
  unfold bind. destruct (call c (t, d)) as [[r [t1 d1]] l1].
  unfold state_of in Hflag. cbn [fst snd] in Hflag.
  destruct r as [[]|e|]; try exact Hflag.
  pose proof (body_keeps_flag_clear rest t1 d1 Hflag) as IH.
  destruct (body rest (t1, d1)) as [[r2 st2] l2]. exact IH.
Qed.

(** The destructor with the flag clear does nothing. *)
Lemma Transaction_delete_idle (t : Transaction) (d : Database) :
  needRollback t = false -> Transaction_delete (t, d) = (Done tt, (t, d), []).
Proof.
  intros Ht. unfold Transaction_delete, bind, get_state. cbn [fst]. now rewrite Ht.
Qed.

(** The destructor with the flag set calls [rollback] and catches what
    it throws. *)
Lemma Transaction_delete_active (t : Transaction) (d : Database) :
  needRollback t = true ->
  exists prepared ok,
    result_of (Transaction_delete (t, d)) = Done tt /\
    trace_of (Transaction_delete (t, d))
    = [EvPrepare ROLLBACK prepared; EvExec ROLLBACK ok] /\
    needRollback (fst (state_of (Transaction_delete (t, d)))) = false.
Proof.
  intros Ht.
  destruct (call_cases CallRollback t d) as (p & ok & Htr & Hflag & Hres).
  exists p, ok.
  unfold Transaction_delete, bind, get_state. cbn [fst]. rewrite Ht.
  unfold try_catch_all. cbn [call statement_of] in *.
  rewrite (triple_eta (rollback (t, d))), Htr.
  destruct Hres as [Hres|(_ & code & message & Hres)]; rewrite Hres;
    unfold result_of, trace_of, state_of in *; cbn [fst snd app];
    auto.
Qed.

End Transactions.

(** C7, as amended: when the destructor runs with [needRollback] still
    set, which is the case as long as neither [commit()] nor [rollback()]
    has been called, it issues one [ROLLBACK], clears the flag and returns
    normally whatever the driver answers: an exception thrown by the
    rollback does not leave it. *)
Theorem destructor_rolls_back_and_swallows
  {N : QtNumeric} {D : QSqlDriver} (t : Transaction) (d : Database) :
  needRollback t = true ->
  exists prepared ok,
    result_of (Transaction_delete (t, d)) = Done tt /\
    trace_of (Transaction_delete (t, d))
    = [EvPrepare ROLLBACK prepared; EvExec ROLLBACK ok] /\
    needRollback (fst (state_of (Transaction_delete (t, d)))) = false.
Proof. apply Transaction_delete_active. Qed.

Lemma destructor_rolls_back_and_swallows_witness :
  let d := Toy.database Toy.stuck Toy.connection "" in
  result_of (rollback (mkTransaction true, d))
  = Thrown (Exception 2 "database is locked") /\
  exists prepared ok,
    result_of (Transaction_delete (mkTransaction true, d)) = Done tt /\
    trace_of (Transaction_delete (mkTransaction true, d))
    = [EvPrepare ROLLBACK prepared; EvExec ROLLBACK ok] /\
    needRollback (fst (state_of (Transaction_delete (mkTransaction true, d)))) = false.
Proof.
  intros d. split; [reflexivity|].
  exact (destructor_rolls_back_and_swallows (D := Toy.stuck)
           (mkTransaction true) d eq_refl).
Defined.

(** C7, as stated, fails: [COMMIT] is refused, so neither [commit()] nor
    [rollback()] has succeeded when the scope ends, and yet the
    destructor issues nothing. *)
Lemma no_implicit_rollback_after_failed_commit :
  let d := Toy.database Toy.busy Toy.connection "" in
  let sc := fst (scope (D := Toy.busy) Deferred [CallCommit] d) in
  begun sc = true /\
  body_result sc = Thrown (Exception 2 "database is locked") /\
  commit_occurred sc = false /\ rollback_occurred sc = false /\
  cleanup_trace sc = [].
Proof. repeat split. Qed.

(** C2, as amended: in the life of a transaction the destructor issues a
    statement exactly when no call was made on it.  With no call, the one
    [ROLLBACK] of the destructor is the only ending statement; with one
    call, [commit()] or [rollback()], returning or throwing, the statement
    of that call is the only one and the destructor is silent; after
    several calls the destructor is silent as well. *)
Theorem transaction_ends_once
  {N : QtNumeric} {D : QSqlDriver} (mode : Mode) (calls : list Call) (d : Database) :
  let sc := fst (scope mode calls d) in
  begun sc = true ->
  cleanup_result sc = Done tt /\
  match calls with
  | [] =>
      body_trace sc = [] /\
      (exists prepared ok,
          cleanup_trace sc = [EvPrepare ROLLBACK prepared; EvExec ROLLBACK ok]) /\
      ending_statements (body_trace sc ++ cleanup_trace sc) = 1%nat
  | [c] =>
      (exists prepared ok,
          body_trace sc
          = [EvPrepare (statement_of c) prepared; EvExec (statement_of c) ok]) /\
      cleanup_trace sc = [] /\
      ending_statements (body_trace sc ++ cleanup_trace sc) = 1%nat
  | _ :: _ :: _ => cleanup_trace sc = []
  end.
Proof.
  cbv zeta. unfold scope.
  destruct (Transaction_new mode d) as [[[t|e|] d1] l0] eqn:Hnew;
    cbn [fst begun]; try discriminate.
  intros _. apply Transaction_new_active in Hnew.
  destruct calls as [|c rest].
  - (* no call: the destructor rolls back *)
    cbn [body]. unfold ret.
    destruct (Transaction_delete_active t d1 Hnew) as (p & ok & Hres & Htr & _).
    destruct (Transaction_delete (t, d1)) as [[r' st'] l'].
    unfold result_of, trace_of in *. cbn [fst snd] in *. subst r' l'.
    cbn [fst cleanup_result body_trace cleanup_trace app].
    split; [reflexivity|]. split; [reflexivity|]. split; [eauto|].
    unfold ending_statements. cbn. rewrite ?orb_true_r. reflexivity.
  - (* at least one call: the flag is clear when the destructor runs *)
    pose proof (body_clears_flag c rest t d1) as Hflag.
    destruct (body (c :: rest) (t, d1)) as [[r [t2 d2]] l] eqn:Hbody.
    unfold state_of in Hflag. cbn [fst snd] in Hflag.
    rewrite (Transaction_delete_idle t2 d2 Hflag).
    cbn [fst cleanup_result body_trace cleanup_trace].
    split; [reflexivity|].
    destruct rest as [|c' rest]; [|reflexivity].
    cbn [body] in Hbody.
    destruct (call_cases c t d1) as (p & ok & Htr & _ & Hres).
    unfold bind in Hbody.
    destruct (call c (t, d1)) as [[rc stc] lc].
    unfold trace_of, result_of in *. cbn [fst snd] in *. subst lc.
    assert (Hl : l = [EvPrepare (statement_of c) p; EvExec (statement_of c) ok]).
    { destruct rc as [[]|e|]; cbn in Hbody; now injection Hbody as _ _ <-. }
    subst l. split; [eauto|]. split; [reflexivity|].
    unfold ending_statements. rewrite app_nil_r. cbn.
    destruct c; cbn; rewrite ?orb_true_r; reflexivity.
Qed.

Lemma transaction_ends_once_witness :
  let d := Toy.database Toy.busy Toy.connection "" in
  let sc := fst (scope (D := Toy.busy) Deferred [CallCommit] d) in
  body_result sc = Thrown (Exception 2 "database is locked") /\
  cleanup_result sc = Done tt /\
  (exists prepared ok,
      body_trace sc = [EvPrepare COMMIT prepared; EvExec COMMIT ok]) /\
  cleanup_trace sc = [] /\
  ending_statements (body_trace sc ++ cleanup_trace sc) = 1%nat.
Proof.
  intros d sc. split; [reflexivity|].
  exact (transaction_ends_once (D := Toy.busy) Deferred [CallCommit] d eq_refl).
Defined.

(** C2, as stated, fails: when [COMMIT] is refused, [commit()] throws, the
    destructor issues nothing, and the scope ends with the transaction
    neither committed nor rolled back: none of the three has occurred. *)
Lemma failed_commit_resolves_nothing :
  let d := Toy.database Toy.busy Toy.connection "" in
  let sc := fst (scope (D := Toy.busy) Deferred [CallCommit] d) in
  begun sc = true /\
  body_trace sc = [EvPrepare COMMIT true; EvExec COMMIT false] /\
  occurrences sc = 0%nat.
Proof. repeat split. Qed.

(** ** [Statement]: binding and reading *)

Lemma wrap_in_range (t : IntType) (n : Z) : in_range t n -> wrap t n = n.
Proof.
  unfold in_range, wrap. destruct t; cbn [is_signed bits]; intros Hn;
    try (rewrite Z.mod_small; lia).
Qed.

Section Statements.
Context {N : QtNumeric} {D : QSqlDriver} {H : Headers}.

Lemma statement_eta (this : Statement) :
  mkStatement (mkStatementImpl (query (Statement_impl this))) = this.
Proof. destruct this as [[q]]. reflexivity. Qed.

(** Every [bind] but the one with a length check: the value goes to the
    driver at position [offset - 1], then the query's error is checked. *)
Lemma bindValue_checked (pos : Z) (v : QVariant) (this : Statement) :
  let q := query_bindValue pos v (query (Statement_impl this)) in
  let e := query_lastError q in
  with_query (bindValue pos v ;; check_query) this =
  (if is_NoError (error_type e) then Done tt
   else Thrown (Exception (ErrorType_code (error_type e)) (error_text e)),
   mkStatement (mkStatementImpl q), []).
Proof.
  unfold with_query, bindValue, check_query, checkQueryError, get_state, bind.
  cbv zeta. rewrite checkError_cases.
  destruct (is_NoError _); reflexivity.
Qed.

Lemma bind_null_cases (how : NullBinding) (offset : Z) (this : Statement) :
  bind_null how offset this
  = with_query (bindValue (offset - 1) QV_Invalid ;; check_query) this.
Proof. destruct how; reflexivity. Qed.

(** The beginning of every [get] on a valid row without error. *)
Lemma column_valid (offset : Z) (q : Query) :
  query_isValid q = true ->
  error_type (query_lastError q) = NoError ->
  column offset q = (Done (query_value offset q), q, []).
Proof.
  intros Hv He.
  unfold column, check_query, checkQueryError, assert, get_state, bind, ret.
  rewrite Hv, checkError_cases, He. reflexivity.
Qed.

Lemma get_on_valid_row {A} (f : QVariant -> A) (offset : Z) (this : Statement) :
  query_isValid (query (Statement_impl this)) = true ->
  error_type (query_lastError (query (Statement_impl this))) = NoError ->
  with_query (value <- column offset ;; ret (f value)) this
  = (Done (f (query_value offset (query (Statement_impl this)))), this, []).
Proof.
  intros Hv He. unfold with_query, bind.
  rewrite (column_valid offset _ Hv He). unfold ret. cbn.
  now rewrite statement_eta.
Qed.

Lemma toByteArray_isNull (v : QVariant) :
  QByteArray_isNull (toByteArray v) = QVariant_isNull v.
Proof. destruct v; reflexivity. Qed.

End Statements.

(** The query [SELECT ?] of the small driver is round-tripping from
    parameter 1 to column 0. *)
Lemma Toy_select_round_trips :
  round_trips (D := Toy.sound) (Toy.statement Toy.sound Toy.select) Toy.connection 1 0.
Proof.
  intros v this' c' tr Hrun. unfold run in Hrun. cbn in Hrun.
  injection Hrun as <- _ _.
  cbn. split; [reflexivity|]. split; [reflexivity|].
  split.
  - destruct v as [| | | | | |[|]]; cbn; congruence.
  - intros t n ->. cbn [Toy.read_back value_int].
    apply wrap_in_range. unfold in_range, wrap. cbn [is_signed bits].
    pose proof (Z.mod_pos_bound (n + 2 ^ (64 - 1)) (2 ^ 64) ltac:(lia)). lia.
Qed.

(** C4, as amended: a length above [INT_MAX] makes [bind] throw
    [std::range_error("value too long")] before anything is done: the
    statement is as it was and the driver is not called.  The exception is
    not the [Exception] of the other failures and carries no error code. *)
Theorem bind_too_long_throws_range_error
  {N : QtNumeric} {D : QSqlDriver}
  (offset : Z) (value : string) (length : Z) (retain : bool) (this : Statement) :
  length > INT_MAX ->
  bind_chars offset value length retain this
  = (Thrown (std_range_error "value too long"), this, []) /\
  is_Exception (std_range_error "value too long") = false.
Proof.
  intros Hlen. unfold bind_chars.
  destruct (Z.gtb_spec length INT_MAX); [|lia]. split; reflexivity.
Qed.

Lemma bind_too_long_throws_range_error_witness :
  let this := Toy.statement Toy.sound Toy.select in
  2147483648 > INT_MAX /\
  bind_chars 1 "blob" 2147483648 true this
  = (Thrown (std_range_error "value too long"), this, []) /\
  is_Exception (std_range_error "value too long") = false.
Proof.
  intros this. split; [reflexivity|].
  apply (bind_too_long_throws_range_error (D := Toy.sound)). reflexivity.
Defined.

(** C4, as stated, fails: for a length of [2^31] what is thrown is not an
    [Exception] with a code and a message. *)
Lemma too_long_is_not_an_Exception :
  let this := Toy.statement Toy.sound Toy.select in
  exists e,
    result_of (bind_chars 1 "blob" 2147483648 false this) = Thrown e /\
    is_Exception e = false.
Proof. intros this. exists (std_range_error "value too long"). split; reflexivity. Qed.

(** C5: whichever way [NULL] is bound (the null marker, an absent
    optional string, an absent optional timestamp), the driver is handed
    [QVariant()]; on a round-tripping query the row read afterwards gives
    an absent value for each of the four optional types. *)
Theorem null_reads_back_absent
  {N : QtNumeric} {D : QSqlDriver} {H : Headers}
  (how : NullBinding) (T : OptionalType) (offset column : Z)
  (this this1 this2 : Statement) (c c2 : Conn) (tr1 tr2 : list Event) :
  round_trips this c offset column ->
  bind_null how offset this = (Done tt, this1, tr1) ->
  run (this1, c) = (Done true, (this2, c2), tr2) ->
  query (Statement_impl this1)
  = query_bindValue (offset - 1) QV_Invalid (query (Statement_impl this)) /\
  reads_absent T column this2.
Proof.
  intros Hrt Hbind Hrun.
  rewrite bind_null_cases, bindValue_checked in Hbind. cbv zeta in Hbind.
  injection Hbind as _ <- _. split; [reflexivity|].
  destruct (Hrt _ _ _ _ Hrun) as (Hv & He & Hnull & _).
  specialize (Hnull eq_refl).
  destruct T; unfold reads_absent, get_optional_int64, get_optional_double,
    get_optional_string, get_optional_Timestamp, with_query, bind;
    rewrite (column_valid column _ Hv He);
    rewrite ?toByteArray_isNull, Hnull; unfold ret; cbn;
    now rewrite statement_eta.
Qed.

Lemma null_reads_back_absent_witness :
  let this := Toy.statement Toy.sound Toy.select in
  let this1 := state_of (bind_optional_string (D := Toy.sound) (H := Toy.headers) 1 None this) in
  let this2 := fst (state_of (run (this1, Toy.connection))) in
  result_of (run (this1, Toy.connection)) = Done true /\
  get_optional_int64 0 this2 = (Done None, this2, []).
Proof.
  intros this this1 this2. split; [reflexivity|].
  exact (proj2 (null_reads_back_absent (D := Toy.sound) (H := Toy.headers)
                  ByAbsentString OptInt64 1 0 this this1 this2
                  Toy.connection _ [] _
                  Toy_select_round_trips eq_refl eq_refl)).
Defined.

(** ** Timestamps *)

Section Timestamps.
Context {H : Headers}.
Hypothesis rate_positive : 0 < timestamp_rate.
Hypothesis clock_positive : 0 < clock_per_tick.

Lemma whole_seconds_between (value : Z) :
  (0 <= Z.quot value timestamp_rate * timestamp_rate <= value) \/
  (value <= Z.quot value timestamp_rate * timestamp_rate <= 0).
Proof.
  assert (Hrate : timestamp_rate <> 0) by lia.
  destruct (Z.le_gt_cases 0 value) as [Hv|Hv].
  - left. pose proof (Z.mul_quot_le value timestamp_rate Hv Hrate). lia.
  - right. assert (Hv' : value <= 0) by lia.
    pose proof (Z.mul_quot_ge value timestamp_rate Hv' Hrate). lia.
Qed.

Lemma to_time_t_seconds (value : Timestamp) :
  in_range I64 (value * clock_per_tick) ->
  to_time_t value = Z.quot value timestamp_rate /\
  in_range I64 (Z.quot value timestamp_rate).
Proof.
  intros Hr. unfold to_time_t, clock_rate. rewrite (wrap_in_range I64 _ Hr).
  rewrite Z.quot_mul_cancel_r by lia. split; [reflexivity|].
  unfold in_range in *. cbn [is_signed bits] in *.
  destruct (whole_seconds_between value); nia.
Qed.

Lemma from_time_t_whole_seconds (value : Timestamp) :
  in_range I64 (value * clock_per_tick) ->
  from_time_t_seconds (Z.quot value timestamp_rate) = whole_seconds value.
Proof.
  intros Hr. unfold from_time_t_seconds, whole_seconds, clock_rate.
  assert (Hs : in_range I64 (Z.quot value timestamp_rate * timestamp_rate)
               /\ in_range I64 (Z.quot value timestamp_rate
                                * (timestamp_rate * clock_per_tick))).
  { unfold in_range in *. cbn [is_signed bits] in *.
    destruct (whole_seconds_between value); split; nia. }
  destruct Hs as [Hs1 Hs2].
  rewrite (wrap_in_range I64 _ Hs2), Z.quot_mul by lia.
  rewrite (wrap_in_range I64 _ Hs1). apply Z.mul_comm.
Qed.

End Timestamps.

(** C6, as amended: for a timestamp that the system clock can hold (its
    count, scaled to the ticks of the clock, fits in 64 bits), [bind]
    hands the driver the whole seconds since the epoch as a 64-bit
    integer, and on a round-tripping query [get<Timestamp>] gives the
    timestamp back cut to whole seconds.  The tick rates are positive. *)
Theorem timestamp_round_trip
  {N : QtNumeric} {D : QSqlDriver} {H : Headers}
  (value : Timestamp) (offset column : Z)
  (this this1 this2 : Statement) (c c2 : Conn) (tr1 tr2 : list Event) :
  0 < timestamp_rate ->
  0 < clock_per_tick ->
  in_range I64 (value * clock_per_tick) ->
  round_trips this c offset column ->
  bind_Timestamp offset value this = (Done tt, this1, tr1) ->
  run (this1, c) = (Done true, (this2, c2), tr2) ->
  query (Statement_impl this1)
  = query_bindValue (offset - 1) (QV_Int I64 (Z.quot value timestamp_rate))
      (query (Statement_impl this)) /\
  get_Timestamp column this2 = (Done (whole_seconds value), this2, []).
Proof.
  intros Hrate Hclock Hrange Hrt Hbind Hrun.
  destruct (to_time_t_seconds Hrate Hclock value Hrange) as [Hsec Hsec_range].
  unfold bind_Timestamp, bind_value in Hbind. cbn [fromValue] in Hbind.
  rewrite bindValue_checked, Hsec in Hbind. cbv zeta in Hbind.
  injection Hbind as _ <- _. split; [reflexivity|].
  destruct (Hrt _ _ _ _ Hrun) as (Hv & He & _ & Hint).
  specialize (Hint _ _ eq_refl). rewrite (wrap_in_range I64 _ Hsec_range) in Hint.
  unfold get_Timestamp.
  rewrite (get_on_valid_row (fun v => from_time_t_seconds (value_int I64 v)) _ _ Hv He).
  rewrite Hint, (from_time_t_whole_seconds Hrate Hclock value Hrange). reflexivity.
Qed.

Lemma timestamp_round_trip_witness :
  let this := Toy.statement Toy.sound Toy.select in
  let this1 := state_of (bind_Timestamp (D := Toy.sound) (H := Toy.headers_ms) 1 (-1500) this) in
  let this2 := fst (state_of (run (this1, Toy.connection))) in
  Toy.bound (query (Statement_impl this1)) = [(0, QV_Int I64 (-1))] /\
  get_Timestamp (H := Toy.headers_ms) 0 this2 = (Done (-1000), this2, []).
Proof.
  intros this this1 this2. split; [reflexivity|].
  refine (proj2 (timestamp_round_trip (D := Toy.sound) (H := Toy.headers_ms)
                   (-1500) 1 0 this this1 this2 Toy.connection _ [] _
                   _ _ _ Toy_select_round_trips eq_refl eq_refl)).
  - reflexivity.
  - reflexivity.
  - vm_compute. split; [discriminate|reflexivity].
Defined.

(** C6 as it was stated, for every timestamp, fails past what the system
    clock can hold.  With timestamps in seconds over a clock in
    nanoseconds, the last second of the year 9999 scaled to nanoseconds
    does not fit in 64 bits: [to_time_t] goes through the clock, the
    count wraps, and what is bound, and read back, is a second of the
    year 1816, not the timestamp cut to whole seconds (itself). *)
Lemma far_timestamp_does_not_round_trip :
  let value := 253402300799 in
  let this := Toy.statement Toy.sound Toy.select in
  let bound := bind_Timestamp (D := Toy.sound) (H := Toy.headers) 1 value this in
  let ran := run (state_of bound, Toy.connection) in
  let this2 := fst (state_of ran) in
  in_range I64 value /\
  ~ in_range I64 (value * @clock_per_tick Toy.headers) /\
  whole_seconds (H := Toy.headers) value = value /\
  result_of bound = Done tt /\
  Toy.bound (query (Statement_impl (state_of bound))) = [(0, QV_Int I64 (-4852116232))] /\
  result_of ran = Done true /\
  get_Timestamp (H := Toy.headers) 0 this2 = (Done (-4852116232), this2, []).
Proof.
  cbv zeta. split; [|split; [|repeat split]].
  - vm_compute. split; [discriminate|reflexivity].
  - intros [_ Hlt]. vm_compute in Hlt. discriminate.
Qed.

(** C9: [reset] and [clearBindings] return at once: the statement, and
    with it the values bound, the prepared query and the position in the
    result, is the one they were called on, and the driver is not
    called. *)
Theorem reset_and_clearBindings_do_nothing
  {N : QtNumeric} {D : QSqlDriver} (this : Statement) :
  reset this = (Done tt, this, []) /\
  clearBindings this = (Done tt, this, []) /\
  forall (A : Type) (observe : Query -> A),
    observe (query (Statement_impl (state_of (reset this))))
    = observe (query (Statement_impl this)) /\
    observe (query (Statement_impl (state_of (clearBindings this))))
    = observe (query (Statement_impl this)).
Proof. repeat split. Qed.

(** C10: on a valid row of a query without error, a column whose value is
    null is read as the empty string by [get<std::string>] and as absent
    by [get<optional<std::string>>]; a column whose value is not null is
    read by the second as the string the first returns. *)
Theorem null_string_column
  {N : QtNumeric} {D : QSqlDriver} (offset : Z) (this : Statement) :
  query_isValid (query (Statement_impl this)) = true ->
  error_type (query_lastError (query (Statement_impl this))) = NoError ->
  let value := query_value offset (query (Statement_impl this)) in
  if QVariant_isNull value
  then get_string offset this = (Done "", this, []) /\
       get_optional_string offset this = (Done None, this, [])
  else exists s,
       get_string offset this = (Done s, this, []) /\
       get_optional_string offset this = (Done (Some s), this, []).
Proof.
  intros Hv He value.
  assert (Hs : get_string offset this
               = (Done (QByteArray_toStdString (toByteArray value)), this, [])).
  { apply (get_on_valid_row (fun v => QByteArray_toStdString (toByteArray v)));
      assumption. }
  assert (Ho : get_optional_string offset this
               = (Done (if QVariant_isNull value then None
                        else Some (QByteArray_toStdString (toByteArray value))),
                  this, [])).
  { unfold get_optional_string, with_query, bind.
    rewrite (column_valid offset _ Hv He), toByteArray_isNull. fold value.
    destruct (QVariant_isNull value); unfold ret; cbn; now rewrite statement_eta. }
  rewrite Hs, Ho. destruct (QVariant_isNull value) eqn:Hnull.
  - split; [|reflexivity].
    rewrite <- toByteArray_isNull in Hnull.
    destruct (toByteArray value); [reflexivity|discriminate].
  - eexists. split; reflexivity.
Qed.

Lemma null_string_column_witness :
  let this := Toy.statement Toy.sound
                (Toy.mkQuery "SELECT ?" true [(0, QV_Invalid)] true no_error) in
  get_string 0 this = (Done "", this, []) /\
  get_optional_string 0 this = (Done None, this, []).
Proof.
  intros this.
  exact (null_string_column (D := Toy.sound) 0 this eq_refl eq_refl).
Defined.

(** * More properties of the file *)

(** ** Laws of the monad, pointwise *)

Lemma bind_assoc {S A B C} (m : M S A) (f : A -> M S B) (g : B -> M S C) (s : S) :
  bind (bind m f) g s = bind m (fun a => bind (f a) g) s.
Proof.
  unfold bind. destruct (m s) as [[[a|e|] s1] l1]; try reflexivity.
  destruct (f a s1) as [[[b|e|] s2] l2]; try reflexivity.
  destruct (g b s2) as [[r s3] l3]. now rewrite app_assoc.
Qed.

Lemma bind_ret_l {S A B} (a : A) (k : A -> M S B) (s : S) : bind (ret a) k s = k a s.
Proof. unfold bind, ret. destruct (k a s) as [[r s1] l1]. reflexivity. Qed.

Lemma bind_ret_r {S} (m : M S unit) (s : S) : bind m (fun _ => ret tt) s = m s.
Proof.
  unfold bind, ret. destruct (m s) as [[[[]|e|] s1] l1]; try reflexivity.
  now rewrite app_nil_r.
Qed.

Lemma bind_ext {S A B} (m : M S A) (f g : A -> M S B) (s : S) :
  (forall a s', f a s' = g a s') -> bind m f s = bind m g s.
Proof.
  intros Hfg. unfold bind. destruct (m s) as [[[a|e|] s1] l1]; try reflexivity.
  now rewrite Hfg.
Qed.

(** ** More on [Database::exec] *)

Lemma split_without sep s : occurs sep s = false -> split sep s = [s].
Proof.
  induction s as [|c s IH]; simpl; [reflexivity|].
  intros Hc. apply orb_false_iff in Hc as [Hc Hs]. rewrite Hc, (IH Hs). reflexivity.
Qed.

Lemma statements_at a b :
  statements (a ++ String ";" b) = (statements a ++ statements b)%list.
Proof. unfold statements, removeAll. now rewrite split_at, filter_app. Qed.

Lemma statements_without s :
  occurs ";" s = false -> s <> newline -> statements s = [s].
Proof.
  intros Hs Hn. unfold statements, removeAll. rewrite (split_without _ _ Hs).
  cbn. destruct (String.eqb_spec s newline); [contradiction|reflexivity].
Qed.

Section MoreExec.
Context {N : QtNumeric} {D : QSqlDriver}.

Lemma exec_loop_app (l1 l2 : list string) (d : QSqlDatabase) :
  exec_loop (l1 ++ l2) d = (exec_loop l1 ;; exec_loop l2)%monad d.
Proof.
  revert d. induction l1 as [|piece l1 IH]; intros d; cbn [exec_loop app].
  - now rewrite bind_ret_l.
  - rewrite bind_assoc. apply bind_ext. intros _ d'. apply IH.
Qed.

Lemma with_db_bind {A B} (m : M QSqlDatabase A) (k : A -> M QSqlDatabase B)
  (this : Database) :
  with_db (bind m k) this = bind (with_db m) (fun a => with_db (k a)) this.
Proof.
  unfold with_db, bind. destruct (m (db (impl this))) as [[[a|e|] d1] l1];
    cbn [impl db]; try reflexivity.
  destruct (k a d1) as [[r d2] l2]. reflexivity.
Qed.

(** What one turn of the loop can do: it returns or throws an
    [Exception] with the code of an error, it hands one statement to
    [exec()], and it leaves the connect options and the database name. *)
Lemma exec_statement_outcome (piece : string) (d : QSqlDatabase) :
  (result_of (exec_statement piece d) = Done tt \/
   exists code message,
     result_of (exec_statement piece d) = Thrown (Exception code message)
     /\ 1 <= code <= 4) /\
  executions (trace_of (exec_statement piece d)) = 1%nat /\
  connectOptions (state_of (exec_statement piece d)) = connectOptions d /\
  databaseName (state_of (exec_statement piece d)) = databaseName d.
Proof.
  rewrite exec_statement_cases. cbv zeta.
  unfold result_of, state_of, trace_of. cbn [fst snd connectOptions databaseName].
  repeat split.
  destruct (fst (fst (query_exec _ _))); [now left|].
  match goal with |- context [is_NoError ?t] => destruct t eqn:Ht end;
    cbn [is_NoError]; [now left|right; do 2 eexists; split; [reflexivity|cbn; lia]..].
Qed.

Lemma exec_loop_outcome (l : list string) (d : QSqlDatabase) :
  (result_of (exec_loop l d) = Done tt \/
   exists code message,
     result_of (exec_loop l d) = Thrown (Exception code message) /\ 1 <= code <= 4) /\
  (executions (trace_of (exec_loop l d)) <= List.length l)%nat /\
  (result_of (exec_loop l d) = Done tt ->
   executions (trace_of (exec_loop l d)) = List.length l) /\
  connectOptions (state_of (exec_loop l d)) = connectOptions d /\
  databaseName (state_of (exec_loop l d)) = databaseName d.
Proof.
  revert d. induction l as [|piece rest IH]; intros d.
  - cbn. repeat split; auto.
  - cbn [exec_loop List.length].
    destruct (exec_statement_outcome piece d) as (Hres & Hex & Ho & Hn).
    destruct (exec_statement piece d) as [[r d1] l1] eqn:E.
    unfold result_of, state_of, trace_of in Hres, Hex, Ho, Hn. cbn [fst snd] in *.
    destruct Hres as [->|(code & message & -> & Hcode)].
    + rewrite (bind_Done _ _ _ _ _ _ E).
      destruct (IH d1) as (Hres' & Hle & Heq & Ho' & Hn').
      destruct (exec_loop rest d1) as [[r2 d2] l2].
      unfold result_of, state_of, trace_of in *. cbn [fst snd] in *.
      unfold executions in *. rewrite filter_app, length_app, Hex.
      repeat split; try congruence; try lia. intros Hd. rewrite (Heq Hd). lia.
    + rewrite (bind_Thrown _ _ _ _ _ _ E).
      unfold result_of, state_of, trace_of. cbn [fst snd].
      repeat split; try assumption; try lia; try discriminate.
      right. eauto.
Qed.

End MoreExec.

Lemma with_db_ext {N : QtNumeric} {D : QSqlDriver} {A}
  (m m' : M QSqlDatabase A) (this : Database) :
  (forall d, m d = m' d) -> with_db m this = with_db m' this.
Proof. intros Hm. unfold with_db. now rewrite Hm. Qed.

(** X1: [Database::exec] on a text with a [';'] somewhere is [exec] on what
    stands before it followed by [exec] on what stands after it, the
    latter only if the former returned. *)
Theorem exec_at_semicolon
  {N : QtNumeric} {D : QSqlDriver} (a b : string) (this : Database) :
  Database_exec (a ++ String ";" b) this
  = (Database_exec a ;; Database_exec b)%monad this.
Proof.
  unfold Database_exec. rewrite statements_at, <- with_db_bind.
  apply with_db_ext. intros d. apply exec_loop_app.
Qed.

(** X2: a piece that is exactly a newline is not run: a text may end in
    [";\n"] and may have a lone newline between two semicolons without
    any statement being issued for it. *)
Theorem exec_skips_newline_pieces
  {N : QtNumeric} {D : QSqlDriver} (a b : string) (this : Database) :
  Database_exec (a ++ String ";" newline) this = Database_exec a this /\
  Database_exec (a ++ String ";" (newline ++ String ";" b)) this
  = Database_exec (a ++ String ";" b) this.
Proof.
  unfold Database_exec. rewrite !statements_at.
  change (statements newline) with (@nil string).
  now rewrite app_nil_r.
Qed.

(** X3: a text without [';'] that is not a lone newline is run as one
    statement, the text with [';'] appended; so is the empty text, for
    which the statement [";"] is prepared and executed. *)
Theorem exec_single_statement
  {N : QtNumeric} {D : QSqlDriver} (sql : string) (this : Database) :
  occurs ";" sql = false ->
  sql <> newline ->
  exists prepared ok,
    trace_of (Database_exec sql this)
    = [EvPrepare (sql ++ ";") prepared; EvExec (sql ++ ";") ok].
Proof.
  intros Hs Hn.
  destruct (Database_exec_one sql this (statements_without sql Hs Hn))
    as (p & ok & Htr & _).
  eauto.
Qed.

Lemma exec_single_statement_witness :
  exists prepared ok,
    trace_of (Database_exec "" (Toy.database Toy.sound Toy.connection ""))
    = [EvPrepare ";" prepared; EvExec ";" ok].
Proof.
  apply (exec_single_statement (D := Toy.sound) ""); [reflexivity|discriminate].
Defined.

(** X4: [Database::exec] returns or throws an [Exception] whose code is
    that of an error ([1] to [4]); it never fails an assertion and never
    throws a range error.  Whatever happens, the connect options and the
    database name of the connection are as before. *)
Theorem exec_outcome
  {N : QtNumeric} {D : QSqlDriver} (sql : string) (this : Database) :
  (result_of (Database_exec sql this) = Done tt \/
   exists code message,
     result_of (Database_exec sql this) = Thrown (Exception code message)
     /\ 1 <= code <= 4) /\
  connectOptions (db (impl (state_of (Database_exec sql this))))
  = connectOptions (db (impl this)) /\
  databaseName (db (impl (state_of (Database_exec sql this))))
  = databaseName (db (impl this)).
Proof.
  unfold Database_exec.
  destruct (with_db_trace (exec_loop (statements sql)) this) as (-> & _ & ->).
  destruct (exec_loop_outcome (statements sql) (db (impl this)))
    as (Hres & _ & _ & Ho & Hn).
  auto.
Qed.

(** X5: [Database::exec] never hands more statements to [exec()] than the
    text has pieces, and when it returns normally it has handed every one
    of them: none is skipped on the way. *)
Theorem exec_executes_every_statement
  {N : QtNumeric} {D : QSqlDriver} (sql : string) (this : Database) :
  let pieces := List.length (removeAll newline (split ";" sql)) in
  match result_of (Database_exec sql this) with
  | Done _ => executions (trace_of (Database_exec sql this)) = pieces
  | _ => (executions (trace_of (Database_exec sql this)) <= pieces)%nat
  end.
Proof.
  cbv zeta. unfold Database_exec.
  destruct (with_db_trace (exec_loop (statements sql)) this) as (-> & -> & _).
  destruct (exec_loop_outcome (statements sql) (db (impl this)))
    as (_ & Hle & Heq & _).
  destruct (result_of (exec_loop (statements sql) (db (impl this)))) as [[]|e|];
    auto.
Qed.

(** ** [Database::prepare], [setBusyTimeout], the connection counter *)

(** X6: [Database::prepare] (the constructor of [Statement]) makes one
    call, [prepare()], and hands nothing to [exec()]; the [Database] is as
    before.  It throws the query's error when [prepare()] fails and left
    one, and returns the statement otherwise. *)
Theorem prepare_checks_and_never_executes
  {N : QtNumeric} {D : QSqlDriver} (sql : string) (this : Database) :
  let d := db (impl this) in
  let prepared :=
    query_prepare sql (query_setForwardOnly true (query_new (conn d))) (conn d) in
  let e := query_lastError (snd prepared) in
  Database_prepare sql this =
  (if fst prepared || is_NoError (error_type e)
   then Done (mkStatement (mkStatementImpl (snd prepared)))
   else Thrown (Exception (ErrorType_code (error_type e)) (error_text e)),
   this, [EvPrepare sql (fst prepared)]) /\
  executions (trace_of (Database_prepare sql this)) = 0%nat.
Proof.
  cbv zeta. destruct this as [[d]]. cbn [impl db].
  unfold Database_prepare, Statement_new, with_db, StatementImpl_new,
    checkQueryError, get_state, emit, ret, bind.
  cbn [impl db].
  destruct (query_prepare sql _ (conn d)) as [p q]. cbn [fst snd].
  destruct p; cbn [negb orb]; [split; reflexivity|].
  rewrite checkError_cases. destruct (is_NoError _); split; reflexivity.
Qed.

(** X7: on a connection whose connect options are empty [setBusyTimeout]
    sets them to [QSQLITE_BUSY_TIMEOUT=] followed by the milliseconds in
    decimal and reopens the connection with them.  A later call finds
    that option and changes nothing: the first duration stays. *)
Theorem busy_timeout_is_set_once
  {N : QtNumeric} {D : QSqlDriver} (t1 t2 : Z) (this : Database) :
  isEmpty (connectOptions (db (impl this))) = true ->
  let name := databaseName (db (impl this)) in
  let option := "QSQLITE_BUSY_TIMEOUT=" ++ toString t1 in
  let once := state_of (setBusyTimeout t1 this) in
  connectOptions (db (impl once)) = option /\
  (exists ok, In (EvOpen name option ok) (trace_of (setBusyTimeout t1 this))) /\
  connectOptions (db (impl (state_of (setBusyTimeout t2 once)))) = option /\
  (exists ok, In (EvOpen name option ok) (trace_of (setBusyTimeout t2 once))).
Proof.
  intros He name option once. subst name option once.
  rewrite !setBusyTimeout_cases. cbv zeta.
  unfold state_of, trace_of. cbn [fst snd impl db connectOptions databaseName].
  rewrite He. cbn [isEmpty append].
  repeat split; eexists; apply in_or_app; right; left; reflexivity.
Qed.

Lemma busy_timeout_is_set_once_witness :
  let this := Toy.database Toy.sound Toy.connection "" in
  let once := state_of (setBusyTimeout 250 this) in
  connectOptions (db (impl once)) = "QSQLITE_BUSY_TIMEOUT=250" /\
  (exists ok, In (EvOpen "file.db" "QSQLITE_BUSY_TIMEOUT=250" ok)
                (trace_of (setBusyTimeout 250 this))) /\
  connectOptions (db (impl (state_of (setBusyTimeout 5000 once))))
  = "QSQLITE_BUSY_TIMEOUT=250" /\
  (exists ok, In (EvOpen "file.db" "QSQLITE_BUSY_TIMEOUT=250" ok)
                (trace_of (setBusyTimeout 5000 once))).
Proof.
  intros this once.
  exact (busy_timeout_is_set_once (D := Toy.sound) 250 5000 this eq_refl).
Defined.

(** X8: [setBusyTimeout] closes the connection only if it is open and
    calls [open()] exactly once in any case, so it opens a connection that
    was closed; the database name is untouched.  It returns when [open()]
    succeeds and throws only an [Exception] with the code of an error
    ([1] to [4]), after a failed [open()]. *)
Theorem setBusyTimeout_reopens
  {N : QtNumeric} {D : QSqlDriver} (timeout : Z) (this : Database) :
  databaseName (db (impl (state_of (setBusyTimeout timeout this))))
  = databaseName (db (impl this)) /\
  exists options ok,
    trace_of (setBusyTimeout timeout this)
    = ((if isOpen (db (impl this)) then [EvClose] else [])
       ++ [EvOpen (databaseName (db (impl this))) options ok])%list /\
    connectOptions (db (impl (state_of (setBusyTimeout timeout this)))) = options /\
    match result_of (setBusyTimeout timeout this) with
    | Done _ => True
    | Thrown e => ok = false /\ exists code message,
                    e = Exception code message /\ 1 <= code <= 4
    | Aborted => False
    end /\
    (if ok then result_of (setBusyTimeout timeout this) = Done tt else True).
Proof.
  rewrite setBusyTimeout_cases. cbv zeta.
  unfold state_of, trace_of, result_of.
  cbn [fst snd impl db connectOptions databaseName].
  split; [reflexivity|]. do 2 eexists. split; [reflexivity|]. split; [reflexivity|].
  destruct (fst (drv_open _ _ _)); cbn [orb]; [split; [exact I|reflexivity]|].
  split; [|exact I].
  match goal with |- context [is_NoError ?t] => destruct t end; cbn [is_NoError];
    try exact I; (split; [reflexivity|]); do 2 eexists;
    (split; [reflexivity|cbn; lia]).
Qed.




(** ** More on binding and reading *)

Lemma wrap_wrap_I64 (t : IntType) (n : Z) : wrap t (wrap I64 n) = wrap t n.
Proof.
  assert (E : exists k, wrap I64 n = n + k * 2 ^ 64).
  { exists (- ((n + 2 ^ 63) / 2 ^ 64)). unfold wrap. cbn [is_signed bits].
    rewrite (Z.mod_eq (n + 2 ^ (64 - 1)) (2 ^ 64)) by lia.
    change (64 - 1) with 63. lia. }
  destruct E as [k ->]. unfold wrap.
  set (w := bits t).
  assert (Hw : 0 <= w <= 64) by (subst w; destruct t; cbn; lia).
  assert (E2 : 2 ^ 64 = 2 ^ (64 - w) * 2 ^ w).
  { rewrite <- Z.pow_add_r by lia. f_equal. lia. }
  set (high := 2 ^ (64 - w)) in *. set (low := 2 ^ w) in *.
  set (half := 2 ^ (w - 1)). rewrite E2.
  destruct (is_signed t).
  - replace (n + k * (high * low) + half) with (n + half + (k * high) * low) by ring.
    now rewrite Z_mod_plus_full.
  - replace (n + k * (high * low)) with (n + (k * high) * low) by ring.
    now rewrite Z_mod_plus_full.
Qed.

Lemma substring_all (s : string) : substring 0 (String.length s) s = s.
Proof. induction s as [|c s IH]; cbn; [reflexivity|now rewrite IH]. Qed.

Section MoreStatements.
Context {N : QtNumeric} {D : QSqlDriver} {H : Headers}.

(** After a successful bind at [offset] and a run that gives a row, an
    echoing query holds in [column] what the driver reads back. *)
Lemma echo_after_bind (v : QVariant) (offset column : Z)
  (this this1 this2 : Statement) (c c2 : Conn) (tr1 tr2 : list Event) :
  echoes this c offset column ->
  with_query (bindValue (offset - 1) v ;; check_query) this = (Done tt, this1, tr1) ->
  run (this1, c) = (Done true, (this2, c2), tr2) ->
  query_isValid (query (Statement_impl this2)) = true /\
  error_type (query_lastError (query (Statement_impl this2))) = NoError /\
  read_back_of v (query_value column (query (Statement_impl this2))).
Proof.
  intros Hecho Hbind Hrun. rewrite bindValue_checked in Hbind. cbv zeta in Hbind.
  injection Hbind as _ <- _. exact (Hecho _ _ _ _ Hrun).
Qed.

(** Every [get], spelled out: the assertion comes first, then the error
    check; the statement is not changed and the driver is not called. *)
Lemma get_cases {A} (f : QVariant -> M Query A) (offset : Z) (this : Statement) :
  (forall v q, state_of (f v q) = q /\ trace_of (f v q) = []) ->
  let q := query (Statement_impl this) in
  let e := query_lastError q in
  with_query (value <- column offset ;; f value) this =
  (if negb (query_isValid q) then Aborted
   else if is_NoError (error_type e) then result_of (f (query_value offset q) q)
   else Thrown (Exception (ErrorType_code (error_type e)) (error_text e)),
   this, []).
Proof.
  intros Hf q e. subst q e.
  unfold with_query, column, check_query, checkQueryError, assert, get_state, bind, ret.
  destruct (query_isValid _); cbn [negb]; [|now rewrite statement_eta].
  rewrite checkError_cases. destruct (is_NoError _); [|now rewrite statement_eta].
  destruct (Hf (query_value offset (query (Statement_impl this)))
              (query (Statement_impl this))) as [Hs Ht].
  destruct (f _ _) as [[r q'] l']. unfold state_of, trace_of, result_of in *.
  cbn [fst snd] in *. subst q' l'. now rewrite statement_eta.
Qed.

Lemma outcome_result {A S} (x : result A * S * list Event) :
  outcome x = (match result_of x with
               | Done _ => Done tt
               | Thrown e => Thrown e
               | Aborted => Aborted
               end, state_of x, trace_of x).
Proof. destruct x as [[[a|e|] s] l]; reflexivity. Qed.

End MoreStatements.

(** The query [SELECT ?] of the small driver echoes parameter 1 in
    column 0. *)
Lemma Toy_select_echoes :
  echoes (D := Toy.sound) (Toy.statement Toy.sound Toy.select) Toy.connection 1 0.
Proof.
  intros v this' c' tr Hrun. unfold run in Hrun. cbn in Hrun.
  injection Hrun as <- _ _.
  cbn. split; [reflexivity|]. split; [reflexivity|].
  destruct v as [| | | | | |[|]]; cbn; auto.
Qed.

(** X10: every [get] first asserts that the query stands on a row, then
    throws the query's error if it has one, and only then returns a
    value; in none of the three cases is the statement changed or the
    driver called. *)
Theorem get_asserts_then_checks
  {N : QtNumeric} {D : QSqlDriver} {H : Headers}
  (g : Getter) (offset : Z) (this : Statement) :
  let q := query (Statement_impl this) in
  let e := query_lastError q in
  get_outcome g offset this =
  (if negb (query_isValid q) then Aborted
   else if is_NoError (error_type e) then Done tt
   else Thrown (Exception (ErrorType_code (error_type e)) (error_text e)),
   this, []).
Proof.
  cbv zeta.
  destruct g; unfold get_outcome, get_int, get_double, get_bool, get_blob,
    get_Timestamp, get_string, get_optional_int64, get_optional_double,
    get_optional_string, get_optional_Timestamp;
    rewrite outcome_result, get_cases
      by (intros v q; repeat match goal with
                             | |- context [if ?b then _ else _] => destruct b
                             end; split; reflexivity);
    cbv zeta; unfold result_of, state_of, trace_of; cbn [fst snd];
    destruct (query_isValid _); cbn [negb]; try reflexivity;
    destruct (is_NoError _); try reflexivity;
    repeat match goal with
           | |- context [if ?b then _ else _] => destruct b
           end; reflexivity.
Qed.

(** X11: a scalar bound with [bind<T>] and read with [get<T>] from an
    echoing query comes back unchanged: an integer of any of the integer
    types, a floating point number, a boolean. *)
Theorem scalar_round_trip
  {N : QtNumeric} {D : QSqlDriver} {H : Headers}
  (x : Scalar) (offset column : Z)
  (this this1 this2 : Statement) (c c2 : Conn) (tr1 tr2 : list Event) :
  match x with SInt t n => in_range t n | _ => True end ->
  echoes this c offset column ->
  bind_value offset x this = (Done tt, this1, tr1) ->
  run (this1, c) = (Done true, (this2, c2), tr2) ->
  match x with
  | SInt t n => get_int t column this2 = (Done n, this2, [])
  | SDouble d => get_double column this2 = (Done d, this2, [])
  | SBool b => get_bool column this2 = (Done b, this2, [])
  end.
Proof.
  intros Hx Hecho Hbind Hrun.
  destruct (echo_after_bind _ _ _ _ _ _ _ _ _ _ Hecho Hbind Hrun) as (Hv & He & Hread).
  destruct x as [t n|d|b]; cbn [fromValue read_back_of] in Hread.
  - unfold get_int. rewrite (get_on_valid_row (value_int t) _ _ Hv He), Hread.
    cbn [value_int]. now rewrite wrap_wrap_I64, (wrap_in_range t n Hx).
  - unfold get_double. now rewrite (get_on_valid_row value_double _ _ Hv He), Hread.
  - unfold get_bool. rewrite (get_on_valid_row value_bool _ _ Hv He), Hread.
    now destruct b.
Qed.

Lemma scalar_round_trip_witness :
  let this := Toy.statement Toy.sound Toy.select in
  let this1 := state_of (bind_value (D := Toy.sound) 1 (SInt U32 4294967295) this) in
  let this2 := fst (state_of (run (this1, Toy.connection))) in
  get_int U32 0 this2 = (Done 4294967295, this2, []).
Proof.
  intros this this1 this2.
  refine (scalar_round_trip (D := Toy.sound) (H := Toy.headers)
            (SInt U32 4294967295) 1 0 this this1 this2 Toy.connection _ [] _
            _ Toy_select_echoes eq_refl eq_refl).
  vm_compute. split; [discriminate|reflexivity].
Defined.

(** X12: an integer bound at one type and read at another comes back
    converted to the type it is read at, modulo [2^bits]: the value
    [4294967295] bound as [uint32_t] is [-1] when read as [int32_t]. *)
Theorem integer_read_at_another_type
  {N : QtNumeric} {D : QSqlDriver} {H : Headers}
  (t t' : IntType) (n : Z) (offset column : Z)
  (this this1 this2 : Statement) (c c2 : Conn) (tr1 tr2 : list Event) :
  echoes this c offset column ->
  bind_value offset (SInt t n) this = (Done tt, this1, tr1) ->
  run (this1, c) = (Done true, (this2, c2), tr2) ->
  get_int t' column this2 = (Done (wrap t' n), this2, []).
Proof.
  intros Hecho Hbind Hrun.
  destruct (echo_after_bind _ _ _ _ _ _ _ _ _ _ Hecho Hbind Hrun) as (Hv & He & Hread).
  cbn [fromValue read_back_of] in Hread.
  unfold get_int. rewrite (get_on_valid_row (value_int t') _ _ Hv He), Hread.
  cbn [value_int]. now rewrite wrap_wrap_I64.
Qed.

Lemma integer_read_at_another_type_witness :
  let this := Toy.statement Toy.sound Toy.select in
  let this1 := state_of (bind_value (D := Toy.sound) 1 (SInt U32 4294967295) this) in
  let this2 := fst (state_of (run (this1, Toy.connection))) in
  get_int I32 0 this2 = (Done (-1), this2, []).
Proof.
  intros this this1 this2.
  exact (integer_read_at_another_type (D := Toy.sound) (H := Toy.headers)
           U32 I32 4294967295 1 0 this this1 this2 Toy.connection _ [] _
           Toy_select_echoes eq_refl eq_refl).
Defined.

(** X13: a string bound with [bind(int, const std::string&, bool)],
    whatever [retain] is, is handed to the driver whole, as a byte array
    that is not null (the empty string too, which is not bound as
    [NULL]); read from an echoing query, [get<std::string>] and
    [get<std::vector<uint8_t>>] give the same bytes back, and
    [get<optional<std::string>>] a present value if the string is not
    empty. *)
Theorem string_round_trip
  {N : QtNumeric} {D : QSqlDriver} {H : Headers}
  (s : string) (retain : bool) (offset column : Z)
  (this this1 this2 : Statement) (c c2 : Conn) (tr1 tr2 : list Event) :
  echoes this c offset column ->
  bind_string offset s retain this = (Done tt, this1, tr1) ->
  run (this1, c) = (Done true, (this2, c2), tr2) ->
  query (Statement_impl this1)
  = query_bindValue (offset - 1) (QV_ByteArray (BA s)) (query (Statement_impl this)) /\
  get_string column this2 = (Done s, this2, []) /\
  get_blob column this2 = (Done s, this2, []) /\
  match s with
  | EmptyString => True
  | String _ _ => get_optional_string column this2 = (Done (Some s), this2, [])
  end.
Proof.
  intros Hecho Hbind Hrun.
  unfold bind_string, bind_chars in Hbind.
  destruct (Z.of_nat (String.length s) >? INT_MAX); [discriminate|].
  assert (Hba : (if retain then QByteArray_of s (Z.of_nat (String.length s))
                 else QByteArray_fromRawData s (Z.of_nat (String.length s))) = BA s).
  { unfold QByteArray_of, QByteArray_fromRawData.
    rewrite Nat2Z.id, substring_all. now destruct retain. }
  rewrite Hba in Hbind.
  destruct (echo_after_bind _ _ _ _ _ _ _ _ _ _ Hecho Hbind Hrun)
    as (Hv & He & Hread & Hnull).
  rewrite bindValue_checked in Hbind. cbv zeta in Hbind. injection Hbind as _ <- _.
  split; [reflexivity|].
  unfold get_string, get_blob.
  rewrite !(get_on_valid_row (fun v => QByteArray_toStdString (toByteArray v))
              _ _ Hv He), Hread.
  repeat split. destruct s as [|a s]; [exact I|].
  specialize (Hnull ltac:(discriminate)).
  unfold get_optional_string, with_query, bind.
  rewrite (column_valid column _ Hv He), toByteArray_isNull, Hnull, Hread.
  unfold ret. cbn. now rewrite statement_eta.
Qed.

Lemma string_round_trip_witness :
  let this := Toy.statement Toy.sound Toy.select in
  let this1 := state_of (bind_string (D := Toy.sound) 1 "a;b" false this) in
  let this2 := fst (state_of (run (this1, Toy.connection))) in
  Toy.bound (query (Statement_impl this1)) = [(0, QV_ByteArray (BA "a;b"))] /\
  get_string 0 this2 = (Done "a;b", this2, []) /\
  get_blob 0 this2 = (Done "a;b", this2, []) /\
  get_optional_string 0 this2 = (Done (Some "a;b"), this2, []).
Proof.
  intros this this1 this2. split; [reflexivity|].
  exact (proj2 (string_round_trip (D := Toy.sound) (H := Toy.headers)
                  "a;b" false 1 0 this this1 this2 Toy.connection _ [] _
                  Toy_select_echoes eq_refl eq_refl)).
Defined.

(** X14: a present [optional<mbgl::Timestamp>] bound and read back with
    [get<optional<mbgl::Timestamp>>] from an echoing query is present,
    cut to whole seconds; the tick rates are positive and the timestamp
    is one the system clock can hold. *)
Theorem optional_timestamp_round_trip
  {N : QtNumeric} {D : QSqlDriver} {H : Headers}
  (value : Timestamp) (offset column : Z)
  (this this1 this2 : Statement) (c c2 : Conn) (tr1 tr2 : list Event) :
  0 < timestamp_rate ->
  0 < clock_per_tick ->
  in_range I64 (value * clock_per_tick) ->
  echoes this c offset column ->
  bind_optional_Timestamp offset (Some value) this = (Done tt, this1, tr1) ->
  run (this1, c) = (Done true, (this2, c2), tr2) ->
  get_optional_Timestamp column this2 = (Done (Some (whole_seconds value)), this2, []).
Proof.
  intros Hrate Hclock Hrange Hecho Hbind Hrun.
  destruct (to_time_t_seconds Hrate Hclock value Hrange) as [Hsec Hsec_range].
  unfold bind_optional_Timestamp, bind_Timestamp, bind_value in Hbind.
  cbn [fromValue] in Hbind. rewrite Hsec in Hbind.
  destruct (echo_after_bind _ _ _ _ _ _ _ _ _ _ Hecho Hbind Hrun) as (Hv & He & Hread).
  cbn [read_back_of] in Hread.
  unfold get_optional_Timestamp, with_query, bind.
  rewrite (column_valid column _ Hv He), Hread. cbn [QVariant_isNull value_int].
  rewrite wrap_wrap_I64, (wrap_in_range I64 _ Hsec_range).
  rewrite (from_time_t_whole_seconds Hrate Hclock value Hrange).
  unfold ret. cbn. now rewrite statement_eta.
Qed.

Lemma optional_timestamp_round_trip_witness :
  let this := Toy.statement Toy.sound Toy.select in
  let this1 :=
    state_of (bind_optional_Timestamp (D := Toy.sound) (H := Toy.headers_ms)
                1 (Some 2999) this) in
  let this2 := fst (state_of (run (this1, Toy.connection))) in
  get_optional_Timestamp (H := Toy.headers_ms) 0 this2 = (Done (Some 2000), this2, []).
Proof.
  intros this this1 this2.
  refine (optional_timestamp_round_trip (D := Toy.sound) (H := Toy.headers_ms)
            2999 1 0 this this1 this2 Toy.connection _ [] _
            _ _ _ Toy_select_echoes eq_refl eq_refl).
  - reflexivity.
  - reflexivity.
  - vm_compute. split; [discriminate|reflexivity].
Defined.

(** X15: on a valid row without error a [NULL] column, which the driver
    hands over as a null variant without a value, is read by the
    getters that are not optional as the default of their type: zero,
    [false], the empty string, no bytes, the epoch.  A stored zero or
    empty value reads the same. *)
Theorem null_reads_as_default
  {N : QtNumeric} {D : QSqlDriver} {H : Headers}
  (offset : Z) (this : Statement) :
  query_isValid (query (Statement_impl this)) = true ->
  error_type (query_lastError (query (Statement_impl this))) = NoError ->
  query_value offset (query (Statement_impl this)) = QV_TypedNull \/
  query_value offset (query (Statement_impl this)) = QV_Invalid ->
  (forall t, get_int t offset this = (Done 0, this, [])) /\
  get_bool offset this = (Done false, this, []) /\
  get_double offset this = (Done (double_of_int 0), this, []) /\
  get_string offset this = (Done "", this, []) /\
  get_blob offset this = (Done "", this, []) /\
  get_Timestamp offset this = (Done 0, this, []).
Proof.
  intros Hv He Hnull.
  unfold get_int, get_bool, get_double, get_string, get_blob, get_Timestamp.
  split; [intros t|];
    rewrite ?(get_on_valid_row (value_int t) _ _ Hv He),
      ?(get_on_valid_row value_bool _ _ Hv He),
      ?(get_on_valid_row value_double _ _ Hv He),
      ?(get_on_valid_row (fun v => QByteArray_toStdString (toByteArray v)) _ _ Hv He),
      ?(get_on_valid_row (fun v => from_time_t_seconds (value_int I64 v)) _ _ Hv He);
    destruct Hnull as [-> | ->]; repeat split.
Qed.

Lemma null_reads_as_default_witness :
  let this := Toy.statement Toy.sound
                (Toy.mkQuery "SELECT ?" true [(0, QV_Invalid)] true no_error) in
  (forall t, get_int t 0 this = (Done 0, this, [])) /\
  get_bool 0 this = (Done false, this, []) /\
  get_double 0 this = (Done 0, this, []) /\
  get_string 0 this = (Done "", this, []) /\
  get_blob 0 this = (Done "", this, []) /\
  get_Timestamp (H := Toy.headers) 0 this = (Done 0, this, []).
Proof.
  intros this.
  exact (null_reads_as_default (D := Toy.sound) (H := Toy.headers) 0 this
           eq_refl eq_refl (or_introl eq_refl)).
Defined.

(** X16: on a valid row without error a column that is not null is read
    by [get<optional<T>>] as the present value that [get<T>] returns, for
    [int64_t], [double] and [mbgl::Timestamp]. *)
Theorem optional_agrees_when_not_null
  {N : QtNumeric} {D : QSqlDriver} {H : Headers}
  (offset : Z) (this : Statement) :
  query_isValid (query (Statement_impl this)) = true ->
  error_type (query_lastError (query (Statement_impl this))) = NoError ->
  QVariant_isNull (query_value offset (query (Statement_impl this))) = false ->
  (exists n, get_int I64 offset this = (Done n, this, []) /\
             get_optional_int64 offset this = (Done (Some n), this, [])) /\
  (exists d, get_double offset this = (Done d, this, []) /\
             get_optional_double offset this = (Done (Some d), this, [])) /\
  (exists t, get_Timestamp offset this = (Done t, this, []) /\
             get_optional_Timestamp offset this = (Done (Some t), this, [])).
Proof.
  intros Hv He Hnull.
  unfold get_int, get_double, get_Timestamp,
    get_optional_int64, get_optional_double, get_optional_Timestamp.
  rewrite (get_on_valid_row (value_int I64) _ _ Hv He),
    (get_on_valid_row value_double _ _ Hv He),
    (get_on_valid_row (fun v => from_time_t_seconds (value_int I64 v)) _ _ Hv He).
  unfold with_query, bind. rewrite (column_valid offset _ Hv He), Hnull.
  unfold ret. cbn. rewrite statement_eta.
  repeat split; eexists; split; reflexivity.
Qed.

Lemma optional_agrees_when_not_null_witness :
  let this := Toy.statement Toy.sound
                (Toy.mkQuery "SELECT ?" true [(0, QV_Int I64 7)] true no_error) in
  get_optional_int64 0 this = (Done (Some 7), this, []) /\
  exists n, get_int I64 0 this = (Done n, this, []) /\
            get_optional_int64 0 this = (Done (Some n), this, []).
Proof.
  intros this. split; [reflexivity|].
  exact (proj1 (optional_agrees_when_not_null (D := Toy.sound) (H := Toy.headers)
                  0 this eq_refl eq_refl eq_refl)).
Defined.

(** X17: [bind(int, const char*, std::size_t, bool)] throws the range
    error exactly when the length is above [INT_MAX]; otherwise it hands
    the driver, at position [offset - 1], the first [length] bytes as a
    byte array that is not null, and can only throw an [Exception]. *)
Theorem bind_chars_range
  {N : QtNumeric} {D : QSqlDriver}
  (offset : Z) (value : string) (length : Z) (retain : bool) (this : Statement) :
  let r := bind_chars offset value length retain this in
  (result_of r = Thrown (std_range_error "value too long") <-> length > INT_MAX) /\
  if length >? INT_MAX then state_of r = this
  else query (Statement_impl (state_of r))
       = query_bindValue (offset - 1)
           (QV_ByteArray (BA (substring 0 (Z.to_nat length) value)))
           (query (Statement_impl this)).
Proof.
  cbv zeta. unfold bind_chars.
  destruct (Z.gtb_spec length INT_MAX) as [Hl|Hl].
  - split; [split; [intros _; lia|reflexivity]|reflexivity].
  - assert (Hba : (if retain then QByteArray_of value length
                   else QByteArray_fromRawData value length)
                  = BA (substring 0 (Z.to_nat length) value)) by now destruct retain.
    rewrite Hba, bindValue_checked. cbv zeta.
    unfold result_of, state_of. cbn [fst snd Statement_impl query].
    split; [|reflexivity]. split; [|lia].
    destruct (is_NoError _); discriminate.
Qed.

(** X18: [bindBlob] has no length check.  When the length converted to
    [int] is not negative, it hands the driver that many bytes and can
    only throw an [Exception]: a length of [2^32 + k] binds [k] bytes
    where [bind] throws a range error. *)
Theorem bindBlob_converts_length
  {N : QtNumeric} {D : QSqlDriver} (negative_size : string -> Z -> bool -> QByteArray)
  (offset : Z) (value : string) (length : Z) (retain : bool) (this : Statement) :
  0 <= wrap I32 length ->
  let r := bindBlob negative_size offset value length retain this in
  query (Statement_impl (state_of r))
  = query_bindValue (offset - 1)
      (QV_ByteArray (BA (substring 0 (Z.to_nat (wrap I32 length)) value)))
      (query (Statement_impl this)) /\
  match result_of r with
  | Done _ => True
  | Thrown e => is_Exception e = true
  | Aborted => False
  end.
Proof.
  intros Hl r. subst r. unfold bindBlob, QByteArray_sized.
  destruct (Z.ltb_spec (wrap I32 length) 0) as [Hneg|_]; [lia|].
  assert (Hba : (if retain then QByteArray_of value (wrap I32 length)
                 else QByteArray_fromRawData value (wrap I32 length))
                = BA (substring 0 (Z.to_nat (wrap I32 length)) value))
    by now destruct retain.
  rewrite Hba, bindValue_checked. cbv zeta.
  unfold result_of, state_of. cbn [fst snd Statement_impl query].
  split; [reflexivity|]. destruct (is_NoError _); [exact I|reflexivity].
Qed.

Lemma bindBlob_converts_length_witness :
  let this := Toy.statement Toy.sound Toy.select in
  let r := bindBlob (D := Toy.sound) (fun _ _ _ => BA_null) 1 "abcdef" 4294967298 true this in
  result_of (bind_chars 1 "abcdef" 4294967298 true this)
  = Thrown (std_range_error "value too long") /\
  Toy.bound (query (Statement_impl (state_of r))) = [(0, QV_ByteArray (BA "ab"))] /\
  result_of r = Done tt.
Proof.
  intros this r. split; [reflexivity|].
  pose proof (bindBlob_converts_length (D := Toy.sound) (fun _ _ _ => BA_null)
                1 "abcdef" 4294967298 true this) as W.
  cbv zeta in W. destruct W as [W _]; [vm_compute; discriminate|].
  split; [|reflexivity]. fold r in W. rewrite W. reflexivity.
Defined.

Section Running.
Context {N : QtNumeric} {D : QSqlDriver}.

(** [Statement::run], spelled out. *)
Lemma run_cases (st : Statement * Conn) :
  let q := query_setForwardOnly true (query (Statement_impl (fst st))) in
  let executed := query_exec q (snd st) in
  let ok := fst (fst executed) in
  let q1 := snd (fst executed) in
  let e := query_lastError q1 in
  run st =
  if ok || is_NoError (error_type e)
  then (Done (fst (query_next q1)),
        (mkStatement (mkStatementImpl (snd (query_next q1))), snd executed),
        [EvExec (query_lastQuery q) ok])
  else (Thrown (Exception (ErrorType_code (error_type e)) (error_text e)),
        (mkStatement (mkStatementImpl q1), snd executed),
        [EvExec (query_lastQuery q) ok]).
Proof.
  cbv zeta. unfold run, get_state, put_state, emit, checkQueryError, ret, bind.
  destruct (query_exec _ (snd st)) as [[ok q1] c]. cbn [fst snd].
  destruct ok; cbn [negb orb].
  - destruct (query_next q1) as [row q2]. reflexivity.
  - rewrite checkError_cases. destruct (is_NoError _).
    + destruct (query_next q1) as [row q2]. reflexivity.
    + reflexivity.
Qed.

Lemma run_executes_once (st : Statement * Conn) :
  executions (trace_of (run st)) = 1%nat.
Proof.
  rewrite run_cases. cbv zeta. destruct (_ || _); reflexivity.
Qed.

End Running.

(** X19: [Statement::run] hands the statement to [exec()] each time it is
    called, also when it has been run before: a second [run] does not go
    on to the next row of the first, it executes again.  What [run]
    returns is what [next()] answers right after its own execution. *)
Theorem run_executes_every_time
  {N : QtNumeric} {D : QSqlDriver} (st : Statement * Conn) :
  executions (trace_of (run st)) = 1%nat /\
  match result_of (run st) with
  | Done row =>
      executions (trace_of ((_ <- run ;; run)%monad st)) = 2%nat /\
      row = fst (query_next
                   (snd (fst (query_exec
                      (query_setForwardOnly true (query (Statement_impl (fst st))))
                      (snd st)))))
  | _ => executions (trace_of ((_ <- run ;; run)%monad st)) = 1%nat
  end.
Proof.
  split; [apply run_executes_once|].
  pose proof (run_executes_once st) as H1.
  pose proof (run_cases st) as Hc. cbv zeta in Hc.
  destruct (run st) as [[[row|e|] st1] l1] eqn:E.
  - change (executions l1 = 1%nat) in H1. cbn [result_of fst]. split.
    + rewrite (bind_Done _ _ _ _ _ _ E).
      change (executions (l1 ++ trace_of (run st1)) = 2%nat).
      unfold executions. rewrite filter_app, length_app.
      change (executions l1 + executions (trace_of (run st1)) = 2)%nat.
      now rewrite H1, run_executes_once.
    + destruct (_ || _) in Hc; [|discriminate]. now injection Hc as -> _ _.
  - change (executions l1 = 1%nat) in H1. cbn [result_of fst].
    now rewrite (bind_Thrown _ _ _ _ _ _ E).
  - change (executions l1 = 1%nat) in H1. cbn [result_of fst].
    unfold bind. now rewrite E.
Qed.

(** X20: [changes()] converts the [int] that [numRowsAffected()] returns
    to [uint64_t]: a count is returned as it is, and a negative answer
    [n], which Qt gives when the number is not known, becomes
    [2^64 + n]. *)
Theorem changes_is_unsigned
  {N : QtNumeric} {D : QSqlDriver} (this : Statement) :
  let n := query_numRowsAffected (query (Statement_impl this)) in
  - 2 ^ 31 <= n < 2 ^ 31 ->
  changes this = (if n <? 0 then 2 ^ 64 + n else n) /\
  0 <= changes this < 2 ^ 64.
Proof.
  intros n Hn. unfold changes, wrap. cbn [is_signed bits]. fold n.
  split; [|apply Z.mod_pos_bound; lia].
  destruct (Z.ltb_spec n 0).
  - rewrite <- (Z_mod_plus_full n 1 (2 ^ 64)). rewrite Z.mod_small; lia.
  - rewrite Z.mod_small; lia.
Qed.

Lemma changes_is_unsigned_witness :
  changes (Toy.statement Toy.sound Toy.select) = 0 /\
  0 <= changes (Toy.statement Toy.sound Toy.select) < 2 ^ 64.
Proof.
  apply (changes_is_unsigned (D := Toy.sound) (Toy.statement Toy.sound Toy.select)).
  vm_compute. split; [discriminate|reflexivity].
Defined.

(** ** More on [Transaction] *)


Section Calls.
Context {N : QtNumeric} {D : QSqlDriver}.

Lemma call_issues_one (c : Call) (t : Transaction) (d : Database) :
  ending_statements (trace_of (call c (t, d))) = 1%nat.
Proof.
  destruct (call_cases c t d) as (p & ok & -> & _).
  unfold ending_statements. destruct c; cbn; rewrite ?orb_true_r; reflexivity.
Qed.

Lemma body_issues (calls : list Call) (st : Transaction * Database) :
  match result_of (body calls st) with
  | Done _ => ending_statements (trace_of (body calls st)) = List.length calls
  | _ => (1 <= ending_statements (trace_of (body calls st)) <= List.length calls)%nat
  end.
Proof.
  revert st. induction calls as [|c rest IH]; intros [t d]; [reflexivity|].
  cbn [body List.length]. pose proof (call_issues_one c t d) as H1.
  destruct (call_cases c t d) as (p & ok & _ & _ & Hres).
  destruct (call c (t, d)) as [[r st1] l1] eqn:E.
  change (ending_statements l1 = 1%nat) in H1.
  unfold result_of in Hres. cbn [fst] in Hres.
  destruct Hres as [Hr|(_ & code & message & Hr)]; subst r.
  - rewrite (bind_Done _ _ _ _ _ _ E). specialize (IH st1).
    unfold result_of, trace_of in *. cbn [fst snd] in *.
    assert (Happ : ending_statements (l1 ++ snd (body rest st1))
                   = S (ending_statements (snd (body rest st1)))).
    { unfold ending_statements in *. now rewrite filter_app, length_app, H1. }
    rewrite Happ.
    destruct (fst (fst (body rest st1))) as [[]|e|]; lia.
  - rewrite (bind_Thrown _ _ _ _ _ _ E). unfold result_of, trace_of. cbn [fst snd].
    lia.
Qed.

End Calls.

(** X22: a [Transaction] does not guard its calls: every [commit()] and
    [rollback()] made on it issues its statement, whatever was called
    before, until one of them throws.  When all the calls return, as many
    statements have been issued as calls were made. *)
Theorem calls_are_not_guarded
  {N : QtNumeric} {D : QSqlDriver}
  (calls : list Call) (t : Transaction) (d : Database) :
  match result_of (body calls (t, d)) with
  | Done _ => ending_statements (trace_of (body calls (t, d))) = List.length calls
  | _ => (1 <= ending_statements (trace_of (body calls (t, d))) <= List.length calls)%nat
  end.
Proof. apply body_issues. Qed.

(** ** Moving *)

(** X23: the move constructor takes the implementation and leaves the
    object moved from empty: its [operator bool] is false, and moving
    from it again fails the assertion. *)
Theorem move_leaves_source_empty (Impl : Type) (other : Handle Impl) :
  Handle_bool Impl other = true ->
  Handle_move Impl other = (Done other, None, []) /\
  Handle_bool Impl (state_of (Handle_move Impl other)) = false /\
  result_of (Handle_move Impl (state_of (Handle_move Impl other))) = Aborted.
Proof.
  intros Ho. destruct other as [i|]; [|discriminate]. repeat split.
Qed.

Lemma move_leaves_source_empty_witness :
  Handle_move nat (Some 7%nat) = (Done (Some 7%nat), None, []) /\
  Handle_bool nat (state_of (Handle_move nat (Some 7%nat))) = false /\
  result_of (Handle_move nat (state_of (Handle_move nat (Some 7%nat)))) = Aborted.
Proof. apply (move_leaves_source_empty nat (Some 7%nat)). reflexivity. Defined.

(** X24: the move assignment swaps the two implementations and releases
    none: what the target held is held by the source afterwards, no
    connection is closed, and assigning back restores both objects.  It
    fails the assertion, after the swap, exactly when the source was
    empty. *)
Theorem assign_swaps (Impl : Type) (this other : Handle Impl) :
  Handle_assign Impl (this, other)
  = (if Handle_bool Impl other then Done tt else Aborted, (other, this), []) /\
  if Handle_bool Impl this && Handle_bool Impl other
  then (Handle_assign Impl ;; Handle_assign Impl)%monad (this, other)
       = (Done tt, (this, other), [])
  else result_of ((Handle_assign Impl ;; Handle_assign Impl)%monad (this, other))
       = Aborted.
Proof. destruct this, other; split; reflexivity. Qed.

(** ** More on timestamps *)

(** X25: the two conversions of a timestamp compose to a cut to whole
    seconds: what comes back lies less than a second from the original,
    on the side of the epoch, and binding it again stores the same number
    of seconds.  The tick rates are positive and the timestamp is one the
    system clock can hold. *)
Theorem seconds_conversion_truncates {H : Headers} (value : Timestamp) :
  0 < timestamp_rate ->
  0 < clock_per_tick ->
  in_range I64 (value * clock_per_tick) ->
  from_time_t_seconds (to_time_t value) = whole_seconds value /\
  Z.abs (value - whole_seconds value) < timestamp_rate /\
  Z.abs (whole_seconds value) <= Z.abs value /\
  to_time_t (whole_seconds value) = to_time_t value.
Proof.
  intros Hrate Hclock Hrange.
  destruct (to_time_t_seconds Hrate Hclock value Hrange) as [Hsec _].
  pose proof (whole_seconds_between Hrate value) as Hbetween.
  split; [rewrite Hsec; now apply from_time_t_whole_seconds|].
  unfold whole_seconds. split; [|split].
  - pose proof (Z.quot_rem' value timestamp_rate) as Hqr.
    assert (Hnz : timestamp_rate <> 0) by lia.
    pose proof (Z.rem_bound_abs value timestamp_rate Hnz) as Hb.
    replace (value - timestamp_rate * Z.quot value timestamp_rate)
      with (Z.rem value timestamp_rate) by lia.
    lia.
  - lia.
  - assert (Hrange' : in_range I64
                        (timestamp_rate * Z.quot value timestamp_rate * clock_per_tick)).
    { unfold in_range in *. cbn [is_signed bits] in *.
      replace (timestamp_rate * Z.quot value timestamp_rate)
        with (Z.quot value timestamp_rate * timestamp_rate) by ring.
      set (w := Z.quot value timestamp_rate * timestamp_rate) in *.
      destruct Hbetween as [[? ?]|[? ?]]; nia. }
    destruct (to_time_t_seconds Hrate Hclock _ Hrange') as [-> _].
    rewrite Hsec, Z.mul_comm. apply Z.quot_mul. lia.
Qed.

Lemma seconds_conversion_truncates_witness :
  from_time_t_seconds (H := Toy.headers_ms) (to_time_t (H := Toy.headers_ms) (-1500))
  = -1000 /\
  Z.abs (-1500 - whole_seconds (H := Toy.headers_ms) (-1500)) < 1000 /\
  Z.abs (whole_seconds (H := Toy.headers_ms) (-1500)) <= Z.abs (-1500) /\
  to_time_t (H := Toy.headers_ms) (whole_seconds (H := Toy.headers_ms) (-1500))
  = to_time_t (H := Toy.headers_ms) (-1500).
Proof.
  apply (seconds_conversion_truncates (H := Toy.headers_ms) (-1500)).
  - reflexivity.
  - reflexivity.
  - vm_compute. split; [discriminate|reflexivity].
Defined.
